(** * Admission control of the GABI chat endpoint

    A shallow embedding of the in-memory rate limiter that guards the chat
    route: the store manager of [src/lib/rateLimitStore.ts], the facade of
    [src/middleware/rateLimiter.ts] and the declarations of
    [src/middleware/types.ts].

    Conventions of the embedding.
    - A JavaScript [number] that holds a counter or a millisecond timestamp
      is an integer; it is a [Z] here (all values stay far below 2^53, where
      double arithmetic on integers is exact).
    - A [Map<string, T>] is a [gmap string T]; a [Set<string>] is a
      [gset string].  The objects stored in the maps are created by the
      store manager and never shared between two keys, so the in-place
      updates [data.count++], [data.dailyUsage = ...] and
      [data.sessionIds.add(...)] are insertions of the updated record under
      the same key.
    - [Date.now()] is an input: a store method reads it once, on entry, and
      takes the reading as its argument [now]; a facade method reads it
      several times and takes a [Clock], one reading per call site.
    - Methods that mutate the store take the store and return the new one
      next to their result. *)

From stdpp Require Import gmap strings pretty list fin_maps.

Open Scope Z_scope.

(** ** Declarations ([types.ts]) *)

(** [RateLimitResult.type]: the dimension a decision is about.  The later
    revision of the file adds ['burst'] to the three original tags. *)
Inductive LimitType := type_requests | type_tokens | type_sessions | type_burst.

#[global] Instance LimitType_eq_dec : EqDecision LimitType.
Proof. solve_decision. Defined.

Module RateLimitResult.
Record t := mk
  { allowed : bool; resetTime : Z; remaining : Z; limit : Z;
    type : LimitType }.
End RateLimitResult.

Module RequestLimitData.
Record t := mk { count : Z; resetTime : Z }.
End RequestLimitData.

Module TokenLimitData.
Record t := mk { dailyUsage : Z; resetTime : Z }.
End TokenLimitData.

Module SessionLimitData.
Record t := mk { activeCount : Z; sessionIds : gset string }.
End SessionLimitData.

(** [RateLimitStore], as the store manager's constructor builds it. *)
Record RateLimitStore := mkStore
  { requests : gmap string RequestLimitData.t;
    tokens : gmap string TokenLimitData.t;
    sessions : gmap string SessionLimitData.t }.

(** [RateLimitConfig], in the later revision of [types.ts]: the field
    [requests_limit] is [config.requests.limit], and so on.  No method of
    the store manager or of the facade reads [requests_burstLimit],
    [requests_burstWindowMs], [sessions_windowMs] or [sessions_exemptIPs]. *)
Record RateLimitConfig := mkConfig
  { requests_limit : Z;
    requests_windowMs : Z;
    requests_burstLimit : Z;
    requests_burstWindowMs : Z;
    tokens_limit : Z;
    tokens_windowMs : Z;
    sessions_limit : Z;
    sessions_windowMs : Z;
    sessions_exemptIPs : list string }.

(** The return type of [checkRequestLimit] and [checkTokenLimit]. *)
Module LimitCheck.
Record t := mk { allowed : bool; remaining : Z; resetTime : Z }.
End LimitCheck.

(** The return type of [checkSessionLimit]. *)
Module SessionCheck.
Record t := mk { allowed : bool; remaining : Z }.
End SessionCheck.

(** The bound [T extends { resetTime: number }] of [cleanExpiredEntries]. *)
Class HasResetTime (T : Type) := resetTimeOf : T → Z.

#[global] Instance RequestLimitData_resetTime : HasResetTime RequestLimitData.t :=
  RequestLimitData.resetTime.
#[global] Instance TokenLimitData_resetTime : HasResetTime TokenLimitData.t :=
  TokenLimitData.resetTime.

(** ** Arithmetic helpers *)

(** [Math.ceil(a / b)] for integers [a] and [b > 0]: the least integer not
    below the exact quotient. *)
Definition Math_ceil_div (a b : Z) : Z := - ((- a) / b).

(** ** The store manager ([rateLimitStore.ts]) *)

(** The store of a new manager. *)
Definition emptyStore : RateLimitStore := mkStore ∅ ∅ ∅.

(** The limits the constructor installs.  It sets the two fields of
    [requests] and [tokens] and the limit of [sessions]; the fields that only
    the later [types.ts] declares are left to the caller. *)
Definition constructorConfig
    (burstLimit burstWindowMs sessionsWindowMs : Z) (exemptIPs : list string)
    : RateLimitConfig :=
  {| requests_limit := 10;
     requests_windowMs := 60 * 60 * 1000;
     requests_burstLimit := burstLimit;
     requests_burstWindowMs := burstWindowMs;
     tokens_limit := 5000;
     tokens_windowMs := 24 * 60 * 60 * 1000;
     sessions_limit := 3;
     sessions_windowMs := sessionsWindowMs;
     sessions_exemptIPs := exemptIPs |}.

Definition set_requests (s : RateLimitStore) m : RateLimitStore :=
  mkStore m (tokens s) (sessions s).
Definition set_tokens (s : RateLimitStore) m : RateLimitStore :=
  mkStore (requests s) m (sessions s).
Definition set_sessions (s : RateLimitStore) m : RateLimitStore :=
  mkStore (requests s) (tokens s) m.

(** [cleanExpiredEntries]: one clock reading, then every entry whose
    [resetTime] has been reached is deleted. *)
Definition cleanExpiredEntries `{HasResetTime T}
    (now : Z) (map : gmap string T) : gmap string T :=
  filter (λ kv, ¬ (resetTimeOf kv.2 ≤ now)) map.

Section StoreManager.
Variable config : RateLimitConfig.

Definition checkRequestLimit (now : Z) (ip : string) (s : RateLimitStore)
    : LimitCheck.t * RateLimitStore :=
  let fresh :=
    let resetTime := now + requests_windowMs config in
    (LimitCheck.mk true (requests_limit config - 1) resetTime,
     set_requests s (<[ip := RequestLimitData.mk 1 resetTime]> (requests s))) in
  match requests s !! ip with
  | None => fresh
  | Some data =>
    if now >=? RequestLimitData.resetTime data then fresh
    else if RequestLimitData.count data >=? requests_limit config then
      (LimitCheck.mk false 0 (RequestLimitData.resetTime data), s)
    else
      let data' := RequestLimitData.mk (RequestLimitData.count data + 1)
                                       (RequestLimitData.resetTime data) in
      (LimitCheck.mk true
         (requests_limit config - RequestLimitData.count data')
         (RequestLimitData.resetTime data'),
       set_requests s (<[ip := data']> (requests s)))
  end.

Definition checkTokenLimit (now : Z) (ip : string) (estimatedTokens : Z)
    (s : RateLimitStore) : LimitCheck.t * RateLimitStore :=
  let fresh :=
    let resetTime := now + tokens_windowMs config in
    let newUsage := estimatedTokens in
    (LimitCheck.mk (newUsage <=? tokens_limit config)
                   (Z.max 0 (tokens_limit config - newUsage)) resetTime,
     set_tokens s (<[ip := TokenLimitData.mk newUsage resetTime]> (tokens s))) in
  match tokens s !! ip with
  | None => fresh
  | Some data =>
    if now >=? TokenLimitData.resetTime data then fresh
    else
      let newTotal := TokenLimitData.dailyUsage data + estimatedTokens in
      if newTotal >? tokens_limit config then
        (LimitCheck.mk false
           (Z.max 0 (tokens_limit config - TokenLimitData.dailyUsage data))
           (TokenLimitData.resetTime data), s)
      else
        (LimitCheck.mk true (tokens_limit config - newTotal)
                       (TokenLimitData.resetTime data),
         set_tokens s (<[ip := TokenLimitData.mk newTotal
                                 (TokenLimitData.resetTime data)]> (tokens s)))
  end.

Definition checkSessionLimit (ip sessionId : string) (s : RateLimitStore)
    : SessionCheck.t * RateLimitStore :=
  match sessions s !! ip with
  | None =>
    (SessionCheck.mk true (sessions_limit config - 1),
     set_sessions s (<[ip := SessionLimitData.mk 1 {[sessionId]}]> (sessions s)))
  | Some data =>
    if bool_decide (sessionId ∈ SessionLimitData.sessionIds data) then
      (SessionCheck.mk true
         (sessions_limit config - SessionLimitData.activeCount data), s)
    else if SessionLimitData.activeCount data >=? sessions_limit config then
      (SessionCheck.mk false 0, s)
    else
      let data' :=
        SessionLimitData.mk (SessionLimitData.activeCount data + 1)
          (SessionLimitData.sessionIds data ∪ {[sessionId]}) in
      (SessionCheck.mk true
         (sessions_limit config - SessionLimitData.activeCount data'),
       set_sessions s (<[ip := data']> (sessions s)))
  end.

Definition removeSession (ip sessionId : string) (s : RateLimitStore)
    : RateLimitStore :=
  match sessions s !! ip with
  | Some data =>
    if bool_decide (sessionId ∈ SessionLimitData.sessionIds data) then
      let ids := SessionLimitData.sessionIds data ∖ {[sessionId]} in
      let data' := SessionLimitData.mk (Z.of_nat (size ids)) ids in
      if SessionLimitData.activeCount data' =? 0
      then set_sessions s (delete ip (sessions s))
      else set_sessions s (<[ip := data']> (sessions s))
    else s
  | None => s
  end.

(** [text.length] counts UTF-16 code units; a character of the [string]
    stands for one code unit. *)
Definition estimateTokens (text : string) : Z :=
  Math_ceil_div (Z.of_nat (String.length text)) 4.

Definition getConfig : RateLimitConfig := config.

(** The two timers of [startCleanupTasks]: what a tick does at time [now]. *)
Definition requestCleanup (now : Z) (s : RateLimitStore) : RateLimitStore :=
  set_requests s (cleanExpiredEntries now (requests s)).
Definition tokenCleanup (now : Z) (s : RateLimitStore) : RateLimitStore :=
  set_tokens s (cleanExpiredEntries now (tokens s)).

End StoreManager.

(** ** The facade ([rateLimiter.ts]) *)

(** The readings of [Date.now()] during one call of a facade method, one per
    call site, in the order in which the call reaches them. *)
Record Clock := mkClock
  { atRequestCheck : Z;   (* in [checkRequestLimit] *)
    atTokenCheck : Z;     (* in [checkTokenLimit], or the fallback of
                             [addRateLimitHeaders] *)
    atSessionResult : Z;  (* [Date.now() + 60000] of the session rejection *)
    atRetryHeader : Z;    (* in [createRateLimitHeaders] *)
    atMessage : Z }.      (* in [createRateLimitResponse] *)

(** A clock that stands still during the call. *)
Definition frozen (now : Z) : Clock := mkClock now now now now now.

(** The JSON body of the 429 response. *)
Record RateLimitBody := mkBody
  { body_error : string;
    body_message : string;
    body_type : LimitType;
    body_limit : Z;
    body_remaining : Z;
    body_resetTime : Z }.

(** What [NextResponse.json(body, { status, headers })] is given. *)
Record NextResponse := mkResponse
  { status : Z;
    body : RateLimitBody;
    headers : gmap string string }.

Definition LimitType_toString (t : LimitType) : string :=
  match t with
  | type_requests => "requests"
  | type_tokens => "tokens"
  | type_sessions => "sessions"
  | type_burst => "burst"
  end.

(** [a > 1 ? 's' : ''] *)
Definition plural (n : Z) : string := if n >? 1 then "s" else "".

Definition createRateLimitHeaders (now : Z) (result : RateLimitResult.t)
    : gmap string string :=
  let headers : gmap string string :=
    {[ "X-RateLimit-Limit" := pretty (RateLimitResult.limit result);
       "X-RateLimit-Remaining" := pretty (RateLimitResult.remaining result);
       "X-RateLimit-Reset" := pretty (RateLimitResult.resetTime result);
       "X-RateLimit-Type" := LimitType_toString (RateLimitResult.type result) ]} in
  if negb (RateLimitResult.allowed result) then
    let retryAfterSeconds :=
      Math_ceil_div (RateLimitResult.resetTime result - now) 1000 in
    <["Retry-After" := pretty retryAfterSeconds]> headers
  else headers.

(** [{ ...headers, ...corsHeaders }]: on a shared key the later spread wins. *)
Definition spread (headers corsHeaders : gmap string string)
    : gmap string string :=
  corsHeaders ∪ headers.

Definition createRateLimitResponse (clk : Clock) (result : RateLimitResult.t)
    (corsHeaders : gmap string string) : NextResponse :=
  let headers := createRateLimitHeaders (atRetryHeader clk) result in
  let retryAfterSeconds :=
    Math_ceil_div (RateLimitResult.resetTime result - atMessage clk) 1000 in
  let retryAfterMinutes := Math_ceil_div retryAfterSeconds 60 in
  let retryAfterHours := Math_ceil_div retryAfterMinutes 60 in
  let limit := pretty (RateLimitResult.limit result) in
  let '(message, retryInfo) :=
    match RateLimitResult.type result with
    | type_requests =>
      ("Too many requests. You've exceeded the limit of " +:+ limit
         +:+ " messages per hour.",
       if retryAfterHours >=? 1
       then "Try again in " +:+ pretty retryAfterHours +:+ " hour"
              +:+ plural retryAfterHours +:+ "."
       else "Try again in " +:+ pretty retryAfterMinutes +:+ " minute"
              +:+ plural retryAfterMinutes +:+ ".")
    | type_tokens =>
      ("Daily token limit exceeded. You've reached the limit of " +:+ limit
         +:+ " tokens per day.",
       if retryAfterHours >=? 1
       then "Limit resets in " +:+ pretty retryAfterHours +:+ " hour"
              +:+ plural retryAfterHours +:+ "."
       else "Limit resets in " +:+ pretty retryAfterMinutes +:+ " minute"
              +:+ plural retryAfterMinutes +:+ ".")
    | type_sessions =>
      ("Too many concurrent sessions. Maximum " +:+ limit
         +:+ " sessions allowed per IP address.",
       "Please close an existing session before starting a new one.")
    | type_burst =>
      ("Rate limit exceeded.", "Please try again later.")
    end in
  {| status := 429;
     body :=
       {| body_error := "Rate limit exceeded";
          body_message := message +:+ " " +:+ retryInfo;
          body_type := RateLimitResult.type result;
          body_limit := RateLimitResult.limit result;
          body_remaining := RateLimitResult.remaining result;
          body_resetTime := RateLimitResult.resetTime result |};
     headers := spread headers corsHeaders |}.

(** [messageText ? ... : ...] on an optional string: absent and empty are
    falsy. *)
Definition truthy (messageText : option string) : bool :=
  match messageText with
  | Some text => negb (bool_decide (text = ""))
  | None => false
  end.

Section Facade.
Variable config : RateLimitConfig.

(** [checkLimits].  [ip] and [sessionId] are what [getClientIP] and
    [getSessionId] resolve from the request; [None] is the [null] of an
    admitted request. *)
Definition checkLimits (clk : Clock) (ip sessionId messageText : string)
    (corsHeaders : gmap string string) (s : RateLimitStore)
    : option NextResponse * RateLimitStore :=
  let estimatedTokens := estimateTokens messageText in
  let '(requestCheck, s) := checkRequestLimit config (atRequestCheck clk) ip s in
  if negb (LimitCheck.allowed requestCheck) then
    let result :=
      RateLimitResult.mk false (LimitCheck.resetTime requestCheck)
        (LimitCheck.remaining requestCheck)
        (requests_limit (getConfig config)) type_requests in
    (Some (createRateLimitResponse clk result corsHeaders), s)
  else
  let '(tokenCheck, s) :=
    checkTokenLimit config (atTokenCheck clk) ip estimatedTokens s in
  if negb (LimitCheck.allowed tokenCheck) then
    let result :=
      RateLimitResult.mk false (LimitCheck.resetTime tokenCheck)
        (LimitCheck.remaining tokenCheck)
        (tokens_limit (getConfig config)) type_tokens in
    (Some (createRateLimitResponse clk result corsHeaders), s)
  else
  let '(sessionCheck, s) := checkSessionLimit config ip sessionId s in
  if negb (SessionCheck.allowed sessionCheck) then
    let result :=
      RateLimitResult.mk false (atSessionResult clk + 60000)
        (SessionCheck.remaining sessionCheck)
        (sessions_limit (getConfig config)) type_sessions in
    (Some (createRateLimitResponse clk result corsHeaders), s)
  else
  (None, s).

(** [addRateLimitHeaders].  The response is represented by its headers. *)
Definition addRateLimitHeaders (clk : Clock) (response : gmap string string)
    (ip : string) (messageText : option string) (s : RateLimitStore)
    : gmap string string * RateLimitStore :=
  let config' := getConfig config in
  let '(requestCheck, s) := checkRequestLimit config (atRequestCheck clk) ip s in
  let '(tokenCheck, s) :=
    if truthy messageText
    then checkTokenLimit config (atTokenCheck clk) ip 0 s
    else (LimitCheck.mk true (tokens_limit config')
            (atTokenCheck clk + tokens_windowMs config'), s) in
  let response :=
    <["X-RateLimit-Requests-Limit" := pretty (requests_limit config')]> response in
  let response :=
    <["X-RateLimit-Requests-Remaining" :=
        pretty (LimitCheck.remaining requestCheck)]> response in
  let response :=
    <["X-RateLimit-Requests-Reset" :=
        pretty (LimitCheck.resetTime requestCheck)]> response in
  let response :=
    <["X-RateLimit-Tokens-Limit" := pretty (tokens_limit config')]> response in
  let response :=
    <["X-RateLimit-Tokens-Remaining" :=
        pretty (LimitCheck.remaining tokenCheck)]> response in
  let response :=
    <["X-RateLimit-Tokens-Reset" :=
        pretty (LimitCheck.resetTime tokenCheck)]> response in
  let response :=
    <["X-RateLimit-Sessions-Limit" := pretty (sessions_limit config')]> response in
  (response, s).

(** [RateLimiter.removeSession]. *)
Definition RateLimiter_removeSession (ip sessionId : string)
    (s : RateLimitStore) : RateLimitStore :=
  removeSession ip sessionId s.

End Facade.

(** The CORS headers the chat route passes to [checkLimits]. *)
Definition corsHeaders : gmap string string :=
  {[ "Access-Control-Allow-Origin" := "*";
     "Access-Control-Allow-Methods" := "POST, OPTIONS";
     "Access-Control-Allow-Headers" := "Content-Type" ]}.

(** ** Sequences of operations

    Everything that can act on the store: the three facade methods, the store
    manager's public methods called directly, and a tick of either cleanup
    timer.  Every operation carries the clock readings it makes. *)
Inductive Op :=
  | CheckLimits (clk : Clock) (ip sessionId messageText : string)
                (cors : gmap string string)
  | AddRateLimitHeaders (clk : Clock) (response : gmap string string)
                        (ip : string) (messageText : option string)
  | RemoveSession (ip sessionId : string)
  | CheckRequestLimit (now : Z) (ip : string)
  | CheckTokenLimit (now : Z) (ip : string) (estimatedTokens : Z)
  | CheckSessionLimit (ip sessionId : string)
  | RequestCleanup (now : Z)
  | TokenCleanup (now : Z).

Definition step (config : RateLimitConfig) (s : RateLimitStore) (op : Op)
    : RateLimitStore :=
  match op with
  | CheckLimits clk ip sessionId messageText cors =>
    (checkLimits config clk ip sessionId messageText cors s).2
  | AddRateLimitHeaders clk response ip messageText =>
    (addRateLimitHeaders config clk response ip messageText s).2
  | RemoveSession ip sessionId => RateLimiter_removeSession ip sessionId s
  | CheckRequestLimit now ip => (checkRequestLimit config now ip s).2
  | CheckTokenLimit now ip estimatedTokens =>
    (checkTokenLimit config now ip estimatedTokens s).2
  | CheckSessionLimit ip sessionId => (checkSessionLimit config ip sessionId s).2
  | RequestCleanup now => requestCleanup now s
  | TokenCleanup now => tokenCleanup now s
  end.

Definition run (config : RateLimitConfig) (ops : list Op) (s : RateLimitStore)
    : RateLimitStore :=
  foldl (step config) s ops.

(** [n] calls of [checkSessionLimit] with the same arguments, one after the
    other: the results in call order, and the final store. *)
Fixpoint admitTimes (config : RateLimitConfig) (n : nat) (ip sessionId : string)
    (s : RateLimitStore) : list SessionCheck.t * RateLimitStore :=
  match n with
  | O => ([], s)
  | S n =>
    let '(r, s) := checkSessionLimit config ip sessionId s in
    let '(rs, s) := admitTimes config n ip sessionId s in
    (r :: rs, s)
  end.

(** The use the chat route ([src/app/api/chat/route.ts], [POST]) makes of the
    facade for one request: the admission check and, when it admits, the
    informational headers on the response.  The conversation between the two
    calls does not touch the store; its response is represented by the CORS
    headers it is created with. *)
Definition handleRequest (config : RateLimitConfig) (clkCheck clkHeaders : Clock)
    (ip sessionId messageText : string) (s : RateLimitStore)
    : (NextResponse + gmap string string) * RateLimitStore :=
  match checkLimits config clkCheck ip sessionId messageText corsHeaders s with
  | (Some rateLimitResponse, s) => (inl rateLimitResponse, s)
  | (None, s) =>
    let '(response, s) :=
      addRateLimitHeaders config clkHeaders corsHeaders ip (Some messageText) s in
    (inr response, s)
  end.

(** The dimension on which the route rejects a request, if any. *)
Definition route_admission (config : RateLimitConfig) (clkCheck clkHeaders : Clock)
    (ip sessionId messageText : string) (s : RateLimitStore)
    : option LimitType * RateLimitStore :=
  let '(r, s) :=
    handleRequest config clkCheck clkHeaders ip sessionId messageText s in
  (match r with
   | inl rateLimitResponse => Some (body_type (body rateLimitResponse))
   | inr _ => None
   end, s).

(** ** The admission check as the specification words it

    The specification puts a burst dimension in front of the three dimensions
    of [checkLimits]: the same algorithm as the request check, on a window and
    a limit of its own.  This second definition follows that wording; it is
    only ever compared with [checkLimits]. *)
Record SpecStore := mkSpecStore
  { spec_burst : gmap string RequestLimitData.t;
    spec_store : RateLimitStore }.

Definition spec_checkAndIncrementBurst (config : RateLimitConfig) (now : Z)
    (key : string) (b : gmap string RequestLimitData.t)
    : bool * gmap string RequestLimitData.t :=
  match b !! key with
  | Some w =>
    if RequestLimitData.resetTime w <=? now then
      (true, <[key := RequestLimitData.mk 1 (now + requests_burstWindowMs config)]> b)
    else if RequestLimitData.count w <? requests_burstLimit config then
      (true, <[key := RequestLimitData.mk (RequestLimitData.count w + 1)
                        (RequestLimitData.resetTime w)]> b)
    else (false, b)
  | None =>
    (true, <[key := RequestLimitData.mk 1 (now + requests_burstWindowMs config)]> b)
  end.

(** The dimension that rejects, if any. *)
Definition decision (r : option NextResponse) : option LimitType :=
  (λ resp, body_type (body resp)) <$> r.

Definition spec_admission (config : RateLimitConfig) (clk : Clock)
    (ip sessionId messageText : string) (cors : gmap string string)
    (st : SpecStore) : option LimitType * SpecStore :=
  let '(admitted, b) :=
    spec_checkAndIncrementBurst config (atRequestCheck clk) ip (spec_burst st) in
  if negb admitted then (Some type_burst, mkSpecStore b (spec_store st))
  else
    let '(r, s) :=
      checkLimits config clk ip sessionId messageText cors (spec_store st) in
    (decision r, mkSpecStore b s).

(** The decisions on [n] identical requests, one after the other. *)
Fixpoint decisions {St : Type} (check : St → option LimitType * St) (n : nat)
    (st : St) : list (option LimitType) :=
  match n with
  | O => []
  | S n => let '(d, st) := check st in d :: decisions check n st
  end.

(** ** Example data *)

(** The constructor's limits, with the burst and exemption settings of the
    later revision as QA-LOG.md describes them: three requests per second,
    and the loopback addresses exempt. *)
Definition exampleConfig : RateLimitConfig :=
  constructorConfig 3 1000 (24 * 60 * 60 * 1000) ["127.0.0.1"; "::1"].

(** A message of [n] characters. *)
Definition messageOfLength (n : Z) : string :=
  String.concat "" (replicate (Z.to_nat n) "a").

(** ** Client identity ([rateLimiter.ts]: [getClientIP], [getSessionId])

    A request is represented by what [request.headers.get] answers: the
    header values by lower-case name.  A header value is a byte string, so
    each of its characters is a code unit below 256. *)
Record NextRequest := mkRequest { request_headers : gmap string string }.

Definition headers_get (request : NextRequest) (name : string) : option string :=
  request_headers request !! name.

(** The code units below 256 that [String.prototype.trim] removes: tab, line
    feed, vertical tab, form feed, carriage return, space and no-break
    space. *)
Definition isWhiteSpace (c : Ascii.ascii) : bool :=
  bool_decide (Ascii.N_of_ascii c ∈ [9; 10; 11; 12; 13; 32; 160]%N).

Fixpoint trimStart (s : string) : string :=
  match s with
  | EmptyString => EmptyString
  | String c rest => if isWhiteSpace c then trimStart rest else s
  end.

Fixpoint trimEnd (s : string) : string :=
  match s with
  | EmptyString => EmptyString
  | String c rest =>
    match trimEnd rest with
    | EmptyString => if isWhiteSpace c then EmptyString else String c EmptyString
    | kept => String c kept
    end
  end.

Definition trim (s : string) : string := trimEnd (trimStart s).

(** The separator of [split(',')], code unit 44. *)
Definition comma : Ascii.ascii := Ascii.ascii_of_N 44.

(** [s.split(',')[0]]: what stands before the first comma. *)
Fixpoint split_comma_first (s : string) : string :=
  match s with
  | EmptyString => EmptyString
  | String c rest =>
    if Ascii.eqb c comma then EmptyString else String c (split_comma_first rest)
  end.

(** The code units of a string, in order. *)
Fixpoint codeUnits (s : string) : list Ascii.ascii :=
  match s with
  | EmptyString => []
  | String c rest => c :: codeUnits rest
  end.

(** Nothing but white space. *)
Definition blank (s : string) : Prop :=
  Forall (λ c, isWhiteSpace c = true) (codeUnits s).

Definition getClientIP (request : NextRequest) : string :=
  let forwarded := headers_get request "x-forwarded-for" in
  let realIP := headers_get request "x-real-ip" in
  let cfIP := headers_get request "cf-connecting-ip" in
  if truthy forwarded then trim (split_comma_first (default "" forwarded))
  else if truthy realIP then default "" realIP
  else if truthy cfIP then default "" cfIP
  else "127.0.0.1".

(** [getSessionId]; [randomUUID] is what [crypto.randomUUID()] returns if the
    call reaches it. *)
Definition getSessionId (randomUUID : string) (request : NextRequest) : string :=
  if truthy (headers_get request "x-session-id")
  then default "" (headers_get request "x-session-id")
  else if truthy (headers_get request "session-id")
  then default "" (headers_get request "session-id")
  else randomUUID.

(** The facade methods on a request: the identity is resolved first, then the
    method proceeds as above. *)
Definition checkLimits_request (config : RateLimitConfig) (clk : Clock)
    (randomUUID : string) (request : NextRequest) (messageText : string)
    (cors : gmap string string) (s : RateLimitStore)
    : option NextResponse * RateLimitStore :=
  checkLimits config clk (getClientIP request) (getSessionId randomUUID request)
    messageText cors s.

Definition addRateLimitHeaders_request (config : RateLimitConfig) (clk : Clock)
    (response : gmap string string) (request : NextRequest)
    (messageText : option string) (s : RateLimitStore)
    : gmap string string * RateLimitStore :=
  addRateLimitHeaders config clk response (getClientIP request) messageText s.

Definition removeSession_request (randomUUID : string) (request : NextRequest)
    (s : RateLimitStore) : RateLimitStore :=
  RateLimiter_removeSession (getClientIP request)
    (getSessionId randomUUID request) s.

(** ** Store statistics ([rateLimitStore.ts]: [getStoreStats]) *)
Record StoreStats := mkStats
  { requestEntries : Z;
    tokenEntries : Z;
    sessionEntries : Z;
    totalSessions : Z }.

(** The sum over [sessions.values()] does not depend on the order of the
    entries. *)
Definition getStoreStats (s : RateLimitStore) : StoreStats :=
  let totalSessions :=
    map_fold (λ _ data sum, sum + SessionLimitData.activeCount data) 0
             (sessions s) in
  {| requestEntries := Z.of_nat (size (requests s));
     tokenEntries := Z.of_nat (size (tokens s));
     sessionEntries := Z.of_nat (size (sessions s));
     totalSessions := totalSessions |}.

(** ** The chat route ([src/app/api/chat/route.ts]: [POST]) *)
Record ConversationMessage := mkMessage { role : string; content : string }.

Inductive ChatOutcome :=
  | BadRequest                              (* 400, invalid messages format *)
  | RateLimited (response : NextResponse)   (* the 429 of [checkLimits] *)
  | ServerError                             (* 500, from the [catch] *)
  | Answered (responseHeaders : gmap string string).

(** [messages[messages.length - 1]?.content || ''] *)
Definition latestMessageText (messages : list ConversationMessage) : string :=
  match last messages with
  | Some latestMessage => content latestMessage
  | None => ""
  end.

(** [POST].  [json] is what [request.json()] yields as [messages]: [None]
    when parsing throws, [Some None] when [messages] is not an array.
    [conversation] is the outcome of loading the documents and running the
    conversation, which do not use the store: the headers of the response, or
    [None] when they throw. *)
Definition POST (config : RateLimitConfig) (clkCheck clkHeaders : Clock)
    (randomUUID : string) (request : NextRequest)
    (json : option (option (list ConversationMessage)))
    (conversation : option (gmap string string)) (s : RateLimitStore)
    : ChatOutcome * RateLimitStore :=
  match json with
  | None => (ServerError, s)
  | Some None => (BadRequest, s)
  | Some (Some messages) =>
    if bool_decide (length messages = 0%nat) then (BadRequest, s)
    else
      let messageText := latestMessageText messages in
      match checkLimits_request config clkCheck randomUUID request messageText
              corsHeaders s with
      | (Some rateLimitResponse, s) => (RateLimited rateLimitResponse, s)
      | (None, s) =>
        match conversation with
        | None => (ServerError, s)
        | Some response =>
          let '(response, s) :=
            addRateLimitHeaders_request config clkHeaders response request
              (Some messageText) s in
          (Answered response, s)
        end
      end
  end.

(** One call of [POST]: its clocks, the identifier [crypto.randomUUID()]
    would give, the messages and the outcome of the conversation. *)
Record ChatCall := mkCall
  { call_clkCheck : Clock;
    call_clkHeaders : Clock;
    call_randomUUID : string;
    call_messages : list ConversationMessage;
    call_conversation : option (gmap string string) }.

(** The outcomes of successive calls of [POST] for the same request headers. *)
Fixpoint chat (config : RateLimitConfig) (request : NextRequest)
    (calls : list ChatCall) (s : RateLimitStore)
    : list ChatOutcome * RateLimitStore :=
  match calls with
  | [] => ([], s)
  | call :: calls =>
    let '(outcome, s) :=
      POST config (call_clkCheck call) (call_clkHeaders call)
        (call_randomUUID call) request (Some (Some (call_messages call)))
        (call_conversation call) s in
    let '(outcomes, s) := chat config request calls s in
    (outcome :: outcomes, s)
  end.

Definition isAnswered (outcome : ChatOutcome) : bool :=
  match outcome with Answered _ => true | _ => false end.

(** [n] request checks of one key at the given times: the results in call
    order, and the final store. *)
Fixpoint requestChecks (config : RateLimitConfig) (times : list Z) (ip : string)
    (s : RateLimitStore) : list LimitCheck.t * RateLimitStore :=
  match times with
  | [] => ([], s)
  | now :: times =>
    let '(r, s) := checkRequestLimit config now ip s in
    let '(rs, s) := requestChecks config times ip s in
    (r :: rs, s)
  end.

(** ** The lead route's own limiter ([checkRateLimit])

    A second route keeps a map of request windows of its own, with a limit
    and a window that are constants of the module. *)
Definition RATE_LIMIT : Z := 100.
Definition RATE_WINDOW : Z := 60 * 60 * 1000.

Definition checkRateLimit (now : Z) (ip : string)
    (rateLimitStore : gmap string RequestLimitData.t)
    : bool * gmap string RequestLimitData.t :=
  let fresh :=
    (true, <[ip := RequestLimitData.mk 1 (now + RATE_WINDOW)]> rateLimitStore) in
  match rateLimitStore !! ip with
  | None => fresh
  | Some entry =>
    if now >? RequestLimitData.resetTime entry then fresh
    else if RequestLimitData.count entry >=? RATE_LIMIT then
      (false, rateLimitStore)
    else
      (true, <[ip := RequestLimitData.mk (RequestLimitData.count entry + 1)
                       (RequestLimitData.resetTime entry)]> rateLimitStore)
  end.

(** Successive calls of [checkRateLimit] for one key. *)
Fixpoint rateLimitChecks (times : list Z) (ip : string)
    (rateLimitStore : gmap string RequestLimitData.t) : list bool :=
  match times with
  | [] => []
  | now :: times =>
    let '(r, rateLimitStore) := checkRateLimit now ip rateLimitStore in
    r :: rateLimitChecks times ip rateLimitStore
  end.

(** ** Predicates and auxiliary forms used by the properties *)

(** A request without a session header that counts: [getSessionId] falls
    through to [crypto.randomUUID()]. *)
Definition anonymous (request : NextRequest) : Prop :=
  truthy (headers_get request "x-session-id") = false
  ∧ truthy (headers_get request "session-id") = false.

(** The session ids a key holds, their count as the store records it, and
    the number of further ids the session check can admit for it. *)
Definition sessionIdsOf (s : RateLimitStore) (ip : string) : gset string :=
  match sessions s !! ip with
  | Some data => SessionLimitData.sessionIds data
  | None => ∅
  end.

Definition activeCountOf (s : RateLimitStore) (ip : string) : Z :=
  match sessions s !! ip with
  | Some data => SessionLimitData.activeCount data
  | None => 0
  end.

Definition sessionRoom (config : RateLimitConfig) (s : RateLimitStore)
    (ip : string) : Z :=
  match sessions s !! ip with
  | Some data => Z.max 0 (sessions_limit config - SessionLimitData.activeCount data)
  | None => Z.max 1 (sessions_limit config)
  end.

(** The number of answered calls among the outcomes. *)
Definition answered (outcomes : list ChatOutcome) : nat :=
  length (filter (λ outcome, isAnswered outcome = true) outcomes).

(** [op] is made for the key [ip], or is a tick of a cleanup timer, which
    visits every key. *)
Definition concerns (ip : string) (op : Op) : Prop :=
  match op with
  | CheckLimits _ ip' _ _ _ => ip' = ip
  | AddRateLimitHeaders _ _ ip' _ => ip' = ip
  | RemoveSession ip' _ => ip' = ip
  | CheckRequestLimit _ ip' => ip' = ip
  | CheckTokenLimit _ ip' _ => ip' = ip
  | CheckSessionLimit ip' _ => ip' = ip
  | RequestCleanup _ => True
  | TokenCleanup _ => True
  end.

(** Two stores hold the same entries for the key [ip]. *)
Definition same_at (ip : string) (s s' : RateLimitStore) : Prop :=
  requests s !! ip = requests s' !! ip
  ∧ tokens s !! ip = tokens s' !! ip
  ∧ sessions s !! ip = sessions s' !! ip.

(** [op] is a release. *)
Definition isRelease (op : Op) : bool :=
  match op with
  | RemoveSession _ _ => true
  | _ => false
  end.

(** Every stored session entry counts its set, and the set is not empty. *)
Definition sessions_counted (s : RateLimitStore) : Prop :=
  ∀ ip data, sessions s !! ip = Some data →
    SessionLimitData.activeCount data
    = Z.of_nat (size (SessionLimitData.sessionIds data))
    ∧ 1 ≤ SessionLimitData.activeCount data.

(** Every stored request window is within the limit. *)
Definition requests_bounded (config : RateLimitConfig) (s : RateLimitStore)
    : Prop :=
  ∀ ip data, requests s !! ip = Some data →
    RequestLimitData.count data ≤ requests_limit config.

(** Every stored token window is within the limit. *)
Definition tokens_bounded (config : RateLimitConfig) (s : RateLimitStore)
    : Prop :=
  ∀ ip data, tokens s !! ip = Some data →
    TokenLimitData.dailyUsage data ≤ tokens_limit config.

(** [op] asks for no more tokens than the whole budget. *)
Definition within_budget (config : RateLimitConfig) (op : Op) : Prop :=
  match op with
  | CheckLimits _ _ _ messageText _ =>
    estimateTokens messageText ≤ tokens_limit config
  | CheckTokenLimit _ _ estimatedTokens => estimatedTokens ≤ tokens_limit config
  | _ => True
  end.

(** Every stored session entry counts its set, and the set is within the
    limit. *)
Definition sessions_bounded (config : RateLimitConfig) (s : RateLimitStore)
    : Prop :=
  ∀ ip data, sessions s !! ip = Some data →
    SessionLimitData.activeCount data
    = Z.of_nat (size (SessionLimitData.sessionIds data))
    ∧ SessionLimitData.activeCount data ≤ sessions_limit config.

(** [op] releases a session that [data], the entry of [ip], holds. *)
Definition releases (ip : string) (data : SessionLimitData.t) (op : Op) : Prop :=
  match op with
  | RemoveSession ip' sessionId =>
    ip' = ip ∧ sessionId ∈ SessionLimitData.sessionIds data
  | _ => False
  end.

(** [checkLimits] in terms of the projections of its three checks. *)
Definition checkLimits_steps (config : RateLimitConfig) (clk : Clock)
    (ip sessionId messageText : string) (cors : gmap string string)
    (s : RateLimitStore) : option NextResponse * RateLimitStore :=
  let rq := checkRequestLimit config (atRequestCheck clk) ip s in
  if negb (LimitCheck.allowed rq.1) then
    (Some (createRateLimitResponse clk
       (RateLimitResult.mk false (LimitCheck.resetTime rq.1)
          (LimitCheck.remaining rq.1) (requests_limit config) type_requests)
       cors), rq.2)
  else
    let tk := checkTokenLimit config (atTokenCheck clk) ip
                (estimateTokens messageText) rq.2 in
    if negb (LimitCheck.allowed tk.1) then
      (Some (createRateLimitResponse clk
         (RateLimitResult.mk false (LimitCheck.resetTime tk.1)
            (LimitCheck.remaining tk.1) (tokens_limit config) type_tokens)
         cors), tk.2)
    else
      let ss := checkSessionLimit config ip sessionId tk.2 in
      if negb (SessionCheck.allowed ss.1) then
        (Some (createRateLimitResponse clk
           (RateLimitResult.mk false (atSessionResult clk + 60000)
              (SessionCheck.remaining ss.1) (sessions_limit config)
              type_sessions) cors), ss.2)
      else (None, ss.2).

(** The decision of [checkLimits], in the shape of [spec_admission]. *)
Definition code_admission (config : RateLimitConfig) (clk : Clock)
    (ip sessionId messageText : string) (cors : gmap string string)
    (s : RateLimitStore) : option LimitType * RateLimitStore :=
  let '(r, s) := checkLimits config clk ip sessionId messageText cors s in
  (decision r, s).

(** The same limits with an empty exemption list. *)
Definition without_exemptions (config : RateLimitConfig) : RateLimitConfig :=
  {| requests_limit := requests_limit config;
     requests_windowMs := requests_windowMs config;
     requests_burstLimit := requests_burstLimit config;
     requests_burstWindowMs := requests_burstWindowMs config;
     tokens_limit := tokens_limit config;
     tokens_windowMs := tokens_windowMs config;
     sessions_limit := sessions_limit config;
     sessions_windowMs := sessions_windowMs config;
     sessions_exemptIPs := [] |}.

(** * Properties *)

(** ** [Math.ceil] *)

Lemma Math_ceil_div_spec (a b q : Z) :
  0 < b → (Math_ceil_div a b = q ↔ b * (q - 1) < a ≤ b * q).
Proof.
  intros Hb. unfold Math_ceil_div. split.
  - intros <-.
    pose proof (Z.mul_div_le (- a) b Hb).
    pose proof (Z.mul_succ_div_gt (- a) b Hb). lia.
  - intros [Hlo Hhi].
    assert (- a / b = - q); [|lia].
    symmetry. apply Z.div_unique with (- a - b * - q); lia.
Qed.

Example estimateTokens_Hello : estimateTokens "Hello" = 2.
Proof. reflexivity. Qed.

Example estimateTokens_empty : estimateTokens "" = 0.
Proof. reflexivity. Qed.

(** ** The scenarios of the specification, on the store manager *)

(** Ten request checks within the hour are admitted, the last with nothing
    remaining; the eleventh is rejected; after the hour the window is new. *)
Example scenario_requests :
  let ip := "203.0.113.7" in
  let s9 := run exampleConfig (replicate 9 (CheckRequestLimit 0 ip)) emptyStore in
  let s10 := run exampleConfig (replicate 10 (CheckRequestLimit 0 ip)) emptyStore in
  checkRequestLimit exampleConfig 0 ip emptyStore
  = (LimitCheck.mk true 9 3600000,
     set_requests emptyStore {[ip := RequestLimitData.mk 1 3600000]})
  ∧ checkRequestLimit exampleConfig 0 ip s9 = (LimitCheck.mk true 0 3600000, s10)
  ∧ checkRequestLimit exampleConfig 0 ip s10 = (LimitCheck.mk false 0 3600000, s10)
  ∧ (checkRequestLimit exampleConfig 3600000 ip s10).1
    = LimitCheck.mk true 9 7200000.
Proof. repeat split; vm_compute; reflexivity. Qed.

(** Three token checks of 2000 units: two are admitted, the third is
    rejected and the usage stays at 4000. *)
Example scenario_tokens :
  let ip := "203.0.113.7" in
  let s1 := (checkTokenLimit exampleConfig 0 ip 2000 emptyStore).2 in
  let s2 := (checkTokenLimit exampleConfig 1 ip 2000 s1).2 in
  tokens s1 !! ip = Some (TokenLimitData.mk 2000 86400000)
  ∧ tokens s2 !! ip = Some (TokenLimitData.mk 4000 86400000)
  ∧ checkTokenLimit exampleConfig 2 ip 2000 s2
    = (LimitCheck.mk false 1000 86400000, s2).
Proof. repeat split; vm_compute; reflexivity. Qed.

(** Three session ids are admitted and a fourth is rejected; once the second
    is released, the fourth is admitted. *)
Example scenario_sessions :
  let ip := "203.0.113.7" in
  let s3 := run exampleConfig
              [CheckSessionLimit ip "1"; CheckSessionLimit ip "2";
               CheckSessionLimit ip "3"] emptyStore in
  let s := (checkSessionLimit exampleConfig ip "4"
              (removeSession ip "2" s3)).2 in
  checkSessionLimit exampleConfig ip "4" s3 = (SessionCheck.mk false 0, s3)
  ∧ (checkSessionLimit exampleConfig ip "4" (removeSession ip "2" s3)).1
    = SessionCheck.mk true 0
  ∧ sessions s !! ip
    = Some (SessionLimitData.mk 3 ({["1"]} ∪ {["3"]} ∪ {["4"]})).
Proof. repeat split; vm_compute; reflexivity. Qed.

(** Releasing the last session of a key deletes its entry; releasing an
    unknown id does nothing. *)
Example scenario_release :
  let ip := "203.0.113.7" in
  let s1 := (checkSessionLimit exampleConfig ip "1" emptyStore).2 in
  removeSession ip "1" s1 = emptyStore ∧ removeSession ip "2" s1 = s1.
Proof. split; vm_compute; reflexivity. Qed.

(** ** What each store method leaves alone *)

Ltac break_checks :=
  unfold checkRequestLimit, checkTokenLimit, checkSessionLimit, removeSession;
  repeat case_match; simplify_eq/=.

Section Frames.
Variable config : RateLimitConfig.

Lemma checkRequestLimit_tokens now ip s :
  tokens (checkRequestLimit config now ip s).2 = tokens s.
Proof. by break_checks. Qed.

Lemma checkRequestLimit_sessions now ip s :
  sessions (checkRequestLimit config now ip s).2 = sessions s.
Proof. by break_checks. Qed.

Lemma checkTokenLimit_requests now ip est s :
  requests (checkTokenLimit config now ip est s).2 = requests s.
Proof. by break_checks. Qed.

Lemma checkTokenLimit_sessions now ip est s :
  sessions (checkTokenLimit config now ip est s).2 = sessions s.
Proof. by break_checks. Qed.

Lemma checkSessionLimit_requests ip sid s :
  requests (checkSessionLimit config ip sid s).2 = requests s.
Proof. by break_checks. Qed.

Lemma checkSessionLimit_tokens ip sid s :
  tokens (checkSessionLimit config ip sid s).2 = tokens s.
Proof. by break_checks. Qed.

Lemma removeSession_requests ip sid s :
  requests (removeSession ip sid s) = requests s.
Proof. by break_checks. Qed.

Lemma removeSession_tokens ip sid s :
  tokens (removeSession ip sid s) = tokens s.
Proof. by break_checks. Qed.

(** A rejection by the request check or by the session check writes
    nothing at all. *)
Lemma checkRequestLimit_rejected now ip s :
  LimitCheck.allowed (checkRequestLimit config now ip s).1 = false →
  (checkRequestLimit config now ip s).2 = s.
Proof. by break_checks. Qed.

Lemma checkSessionLimit_rejected ip sid s :
  SessionCheck.allowed (checkSessionLimit config ip sid s).1 = false →
  (checkSessionLimit config ip sid s).2 = s.
Proof. by break_checks. Qed.

(** The facade touches each map only through the store methods. *)
Lemma checkLimits_requests clk ip sid text cors s :
  requests (checkLimits config clk ip sid text cors s).2
  = requests (checkRequestLimit config (atRequestCheck clk) ip s).2.
Proof.
  unfold checkLimits.
  destruct (checkRequestLimit _ _ _ _) as [rq s1] eqn:Hrq.
  destruct (LimitCheck.allowed rq); simpl; [|done].
  pose proof (checkTokenLimit_requests (atTokenCheck clk) ip
                (estimateTokens text) s1) as Htk.
  destruct (checkTokenLimit _ _ _ _ _) as [tk s2].
  destruct (LimitCheck.allowed tk); simpl in *; [|done].
  pose proof (checkSessionLimit_requests ip sid s2) as Hss.
  destruct (checkSessionLimit _ _ _ _) as [ss s3].
  destruct (SessionCheck.allowed ss); simpl in *; congruence.
Qed.

Lemma addRateLimitHeaders_requests clk response ip text s :
  requests (addRateLimitHeaders config clk response ip text s).2
  = requests (checkRequestLimit config (atRequestCheck clk) ip s).2.
Proof.
  unfold addRateLimitHeaders.
  destruct (checkRequestLimit _ _ _ _) as [rq s1].
  destruct (truthy text); simpl; [|done].
  pose proof (checkTokenLimit_requests (atTokenCheck clk) ip 0 s1) as Htk.
  by destruct (checkTokenLimit _ _ _ _ _) as [tk s2].
Qed.

Lemma addRateLimitHeaders_sessions clk response ip text s :
  sessions (addRateLimitHeaders config clk response ip text s).2 = sessions s.
Proof.
  unfold addRateLimitHeaders.
  pose proof (checkRequestLimit_sessions (atRequestCheck clk) ip s) as Hrq.
  destruct (checkRequestLimit _ _ _ _) as [rq s1].
  destruct (truthy text); simpl in *; [|done].
  pose proof (checkTokenLimit_sessions (atTokenCheck clk) ip 0 s1) as Htk.
  destruct (checkTokenLimit _ _ _ _ _) as [tk s2]. simpl in *. congruence.
Qed.

End Frames.

(** [checkLimits] is the chain of its three checks. *)
Lemma checkLimits_unfold config clk ip sessionId messageText cors s :
  checkLimits config clk ip sessionId messageText cors s
  = checkLimits_steps config clk ip sessionId messageText cors s.
Proof.
  unfold checkLimits, checkLimits_steps, getConfig.
  destruct (checkRequestLimit _ _ _ _) as [rq s1]. simpl.
  destruct (LimitCheck.allowed rq); simpl; [|done].
  destruct (checkTokenLimit _ _ _ _ _) as [tk s2]. simpl.
  destruct (LimitCheck.allowed tk); simpl; [|done].
  destruct (checkSessionLimit _ _ _ _) as [ss s3]. simpl.
  by destruct (SessionCheck.allowed ss).
Qed.

(** ** The request counter stays within the limit *)

Section RequestInvariant.
Variable config : RateLimitConfig.
Hypothesis limit_positive : 1 ≤ requests_limit config.

Lemma emptyStore_bounded : requests_bounded config emptyStore.
Proof. intros ip data. simpl. by rewrite lookup_empty. Qed.

Lemma checkRequestLimit_bounded now ip s :
  requests_bounded config s →
  requests_bounded config (checkRequestLimit config now ip s).2.
Proof.
  intros Hs ip' data'. unfold checkRequestLimit.
  destruct (requests s !! ip) as [data|] eqn:Hip; simpl;
    [destruct (now >=? RequestLimitData.resetTime data) eqn:Hnow; simpl;
     [|destruct (RequestLimitData.count data >=? requests_limit config)
         eqn:Hfull; simpl]|];
    try (destruct (decide (ip = ip')) as [->|Hne];
         [rewrite lookup_insert_eq; intros [= <-]; simpl
         |rewrite lookup_insert_ne by done; apply Hs]);
    try apply Hs; try done.
  rewrite Z.geb_leb in Hfull. apply Z.leb_gt in Hfull. lia.
Qed.

Lemma cleanExpiredEntries_bounded now s :
  requests_bounded config s →
  requests_bounded config (requestCleanup now s).
Proof.
  intros Hs ip data. unfold requestCleanup, cleanExpiredEntries. simpl.
  intros [Hip _]%map_lookup_filter_Some. by eapply Hs.
Qed.

Lemma bounded_of_requests s s' :
  requests s' = requests s → requests_bounded config s →
  requests_bounded config s'.
Proof. unfold requests_bounded. by intros ->. Qed.

Lemma step_bounded s op :
  requests_bounded config s → requests_bounded config (step config s op).
Proof.
  intros Hs. destruct op; simpl.
  - eapply bounded_of_requests; [apply checkLimits_requests|].
    by apply checkRequestLimit_bounded.
  - eapply bounded_of_requests; [apply addRateLimitHeaders_requests|].
    by apply checkRequestLimit_bounded.
  - eapply bounded_of_requests; [apply removeSession_requests|done].
  - by apply checkRequestLimit_bounded.
  - eapply bounded_of_requests; [apply checkTokenLimit_requests|done].
  - eapply bounded_of_requests; [apply checkSessionLimit_requests|done].
  - by apply cleanExpiredEntries_bounded.
  - done.
Qed.

Lemma run_bounded ops s :
  requests_bounded config s → requests_bounded config (run config ops s).
Proof.
  revert s. induction ops as [|op ops IH]; intros s Hs; [done|].
  apply IH. by apply step_bounded.
Qed.

End RequestInvariant.

(** C6.  Whatever sequence of operations has run on a new store, and at
    whatever times, every stored request window holds a count that does not
    exceed the configured request limit; in particular it does not while the
    window is active ([now < resetTime]).  The limit is at least one, as the
    constructor's is. *)
Theorem request_count_within_limit (config : RateLimitConfig) (ops : list Op)
    (ip : string) (data : RequestLimitData.t) (now : Z) :
  1 ≤ requests_limit config →
  requests (run config ops emptyStore) !! ip = Some data →
  now < RequestLimitData.resetTime data →
  RequestLimitData.count data ≤ requests_limit config.
Proof.
  intros Hlimit Hdata _.
  eapply run_bounded; [done|apply emptyStore_bounded|done].
Qed.

Lemma request_count_within_limit_witness :
  let ops := replicate 12 (CheckRequestLimit 0 "203.0.113.7") in
  let data := RequestLimitData.mk 10 3600000 in
  1 ≤ requests_limit exampleConfig
  ∧ requests (run exampleConfig ops emptyStore) !! "203.0.113.7" = Some data
  ∧ 0 < RequestLimitData.resetTime data
  ∧ RequestLimitData.count data ≤ requests_limit exampleConfig.
Proof.
  intros ops data.
  assert (H1 : 1 ≤ requests_limit exampleConfig) by (simpl; lia).
  assert (H2 : requests (run exampleConfig ops emptyStore) !! "203.0.113.7"
               = Some data) by (vm_compute; reflexivity).
  assert (H3 : 0 < RequestLimitData.resetTime data) by (simpl; lia).
  split; [exact H1|]. split; [exact H2|]. split; [exact H3|].
  exact (request_count_within_limit exampleConfig ops "203.0.113.7" data 0
           H1 H2 H3).
Defined.

(** ** Sessions *)

Section Sessions.
Variable config : RateLimitConfig.

Lemma checkSessionLimit_member ip sid s data :
  sessions s !! ip = Some data →
  sid ∈ SessionLimitData.sessionIds data →
  checkSessionLimit config ip sid s
  = (SessionCheck.mk true
       (sessions_limit config - SessionLimitData.activeCount data), s).
Proof.
  intros Hip Hsid. unfold checkSessionLimit. rewrite Hip.
  by rewrite bool_decide_eq_true_2.
Qed.

Lemma checkSessionLimit_full ip sid s data :
  sessions s !! ip = Some data →
  sid ∉ SessionLimitData.sessionIds data →
  sessions_limit config ≤ SessionLimitData.activeCount data →
  checkSessionLimit config ip sid s = (SessionCheck.mk false 0, s).
Proof.
  intros Hip Hsid Hfull. unfold checkSessionLimit. rewrite Hip.
  rewrite bool_decide_eq_false_2 by done.
  rewrite Z.geb_leb. by apply Z.leb_le in Hfull as ->.
Qed.

(** An entry that has reached the limit survives every session check,
    whatever key and id the check is made for. *)
Lemma checkSessionLimit_keeps_full ip data ip' sid' s :
  sessions s !! ip = Some data →
  sessions_limit config ≤ SessionLimitData.activeCount data →
  sessions (checkSessionLimit config ip' sid' s).2 !! ip = Some data.
Proof.
  intros Hip Hfull. destruct (decide (ip' = ip)) as [->|Hne].
  - destruct (decide (sid' ∈ SessionLimitData.sessionIds data)).
    + by erewrite checkSessionLimit_member.
    + by erewrite checkSessionLimit_full.
  - unfold checkSessionLimit. repeat case_match; simpl; try done;
      by rewrite lookup_insert_ne.
Qed.

Lemma removeSession_keeps ip data ip' sid' s :
  sessions s !! ip = Some data →
  ¬ (ip' = ip ∧ sid' ∈ SessionLimitData.sessionIds data) →
  sessions (removeSession ip' sid' s) !! ip = Some data.
Proof.
  intros Hip Hother. unfold removeSession.
  destruct (sessions s !! ip') as [data'|] eqn:Hip'; [|done].
  destruct (bool_decide _) eqn:Hmem; [|done].
  apply bool_decide_eq_true in Hmem.
  assert (ip' ≠ ip) as Hne.
  { intros ->. apply Hother. split; [done|]. congruence. }
  case_match; simpl;
    [by rewrite lookup_delete_ne|by rewrite lookup_insert_ne].
Qed.

Lemma checkLimits_keeps_full ip data clk ip' sid' text cors s :
  sessions s !! ip = Some data →
  sessions_limit config ≤ SessionLimitData.activeCount data →
  sessions (checkLimits config clk ip' sid' text cors s).2 !! ip = Some data.
Proof.
  intros Hip Hfull. unfold checkLimits.
  pose proof (checkRequestLimit_sessions config (atRequestCheck clk) ip' s)
    as Hrq.
  destruct (checkRequestLimit _ _ _ _) as [rq s1].
  destruct (LimitCheck.allowed rq); simpl in *; [|congruence].
  pose proof (checkTokenLimit_sessions config (atTokenCheck clk) ip'
                (estimateTokens text) s1) as Htk.
  destruct (checkTokenLimit _ _ _ _ _) as [tk s2].
  destruct (LimitCheck.allowed tk); simpl in *; [|congruence].
  assert (sessions s2 !! ip = Some data) as Hip2 by congruence.
  pose proof (checkSessionLimit_keeps_full ip data ip' sid' s2 Hip2 Hfull)
    as Hss.
  destruct (checkSessionLimit _ _ _ _) as [ss s3].
  by destruct (SessionCheck.allowed ss).
Qed.

End Sessions.

Lemma step_keeps_full config ip data s op :
  sessions s !! ip = Some data →
  sessions_limit config ≤ SessionLimitData.activeCount data →
  ¬ releases ip data op →
  sessions (step config s op) !! ip = Some data.
Proof.
  intros Hip Hfull Hop. destruct op; simpl in *.
  - by apply checkLimits_keeps_full.
  - by rewrite addRateLimitHeaders_sessions.
  - by apply removeSession_keeps.
  - by rewrite checkRequestLimit_sessions.
  - by rewrite checkTokenLimit_sessions.
  - by apply checkSessionLimit_keeps_full.
  - done.
  - done.
Qed.

Lemma run_keeps_full config ip data ops s :
  sessions s !! ip = Some data →
  sessions_limit config ≤ SessionLimitData.activeCount data →
  Forall (λ op, ¬ releases ip data op) ops →
  sessions (run config ops s) !! ip = Some data.
Proof.
  intros Hip Hfull Hops. revert s Hip.
  induction Hops as [|op ops Hop _ IH]; intros s Hip; [done|].
  simpl. apply IH. by apply step_keeps_full.
Qed.

(** C7.  Once a session id is in the set of a key, any number [n] of further
    calls of [checkSessionLimit] with that id are all admitted, with the same
    remaining quota, and leave the store as it was: the set and its size do
    not change. *)
Theorem admitSession_idempotent (config : RateLimitConfig) (n : nat)
    (ip sessionId : string) (s : RateLimitStore) (data : SessionLimitData.t) :
  sessions s !! ip = Some data →
  sessionId ∈ SessionLimitData.sessionIds data →
  admitTimes config n ip sessionId s
  = (replicate n
       (SessionCheck.mk true
          (sessions_limit config - SessionLimitData.activeCount data)), s).
Proof.
  intros Hip Hsid. induction n as [|n IH]; [done|].
  simpl. rewrite (checkSessionLimit_member config ip sessionId s data Hip Hsid).
  by rewrite IH.
Qed.

Lemma admitSession_idempotent_witness :
  let s := (checkSessionLimit exampleConfig "203.0.113.7" "session-1"
              emptyStore).2 in
  let data := SessionLimitData.mk 1 {["session-1"]} in
  sessions s !! "203.0.113.7" = Some data
  ∧ "session-1" ∈ SessionLimitData.sessionIds data
  ∧ admitTimes exampleConfig 5 "203.0.113.7" "session-1" s
    = (replicate 5 (SessionCheck.mk true 2), s).
Proof.
  intros s data.
  assert (H1 : sessions s !! "203.0.113.7" = Some data)
    by (vm_compute; reflexivity).
  assert (H2 : "session-1" ∈ SessionLimitData.sessionIds data)
    by (simpl; by apply elem_of_singleton).
  split; [exact H1|]. split; [exact H2|].
  exact (admitSession_idempotent exampleConfig 5 "203.0.113.7" "session-1" s
           data H1 H2).
Defined.

(** C9.  Session state has no clock.  Once the entry of a key has reached the
    session limit, it stays exactly as it is through any sequence of
    operations, made at any times, that does not release one of its members
    (admission checks, header computations, checks and releases for other
    keys or ids, ticks of both cleanup timers); after such a sequence a
    session id that is not in the set is still rejected, and the rejection
    writes nothing. *)
Theorem session_cap_never_expires (config : RateLimitConfig) (ops : list Op)
    (ip sessionId : string) (s : RateLimitStore) (data : SessionLimitData.t) :
  sessions s !! ip = Some data →
  sessions_limit config ≤ SessionLimitData.activeCount data →
  sessionId ∉ SessionLimitData.sessionIds data →
  Forall (λ op, ¬ releases ip data op) ops →
  sessions (run config ops s) !! ip = Some data
  ∧ checkSessionLimit config ip sessionId (run config ops s)
    = (SessionCheck.mk false 0, run config ops s).
Proof.
  intros Hip Hfull Hsid Hops.
  pose proof (run_keeps_full config ip data ops s Hip Hfull Hops) as Hkept.
  split; [done|]. by apply checkSessionLimit_full with data.
Qed.

Lemma session_cap_never_expires_witness :
  let ip := "203.0.113.7" in
  let s := run exampleConfig
             [CheckSessionLimit ip "s1"; CheckSessionLimit ip "s2";
              CheckSessionLimit ip "s3"] emptyStore in
  let data := SessionLimitData.mk 3 ({["s1"]} ∪ {["s2"]} ∪ {["s3"]}) in
  let ops :=
    [CheckLimits (frozen 1000) ip "s4" "Hello" corsHeaders;
     RequestCleanup 90000000000; TokenCleanup 90000000000;
     RemoveSession ip "s9"; RemoveSession "198.51.100.2" "s1";
     AddRateLimitHeaders (frozen 90000000001) corsHeaders ip (Some "Hello");
     CheckSessionLimit ip "s5"] in
  sessions s !! ip = Some data
  ∧ sessions_limit exampleConfig ≤ SessionLimitData.activeCount data
  ∧ ("s4" ∉ SessionLimitData.sessionIds data)
  ∧ (Forall (λ op, ¬ releases ip data op) ops)
  ∧ sessions (run exampleConfig ops s) !! ip = Some data
  ∧ checkSessionLimit exampleConfig ip "s4" (run exampleConfig ops s)
    = (SessionCheck.mk false 0, run exampleConfig ops s).
Proof.
  intros ip s data ops.
  assert (H1 : sessions s !! ip = Some data) by (vm_compute; reflexivity).
  assert (H2 : sessions_limit exampleConfig ≤ SessionLimitData.activeCount data)
    by (simpl; lia).
  assert (H3 : "s4" ∉ SessionLimitData.sessionIds data).
  { simpl. rewrite !elem_of_union, !elem_of_singleton.
    intros [[|]|]; discriminate. }
  assert (H4 : Forall (λ op, ¬ releases ip data op) ops).
  { repeat constructor; simpl; try tauto.
    intros [Hip _]. discriminate Hip. }
  split; [exact H1|]. split; [exact H2|]. split; [exact H3|].
  split; [exact H4|].
  exact (session_cap_never_expires exampleConfig ops ip "s4" s data
           H1 H2 H3 H4).
Defined.

(** ** The session set stays within the limit *)

Section SessionInvariant.
Variable config : RateLimitConfig.
Hypothesis limit_positive : 1 ≤ sessions_limit config.

Lemma checkSessionLimit_bounded ip sid s :
  sessions_bounded config s →
  sessions_bounded config (checkSessionLimit config ip sid s).2.
Proof.
  intros Hs ip' data'. unfold checkSessionLimit.
  destruct (sessions s !! ip) as [data|] eqn:Hip;
    [destruct (bool_decide (sid ∈ SessionLimitData.sessionIds data))
       eqn:Hmember;
     [|destruct (SessionLimitData.activeCount data >=? sessions_limit config)
         eqn:Hfull]|];
    cbn [snd sessions set_sessions];
    try (destruct (decide (ip = ip')) as [->|Hne];
         [rewrite lookup_insert_eq; intros [= <-];
          cbn [SessionLimitData.activeCount SessionLimitData.sessionIds]
         |rewrite lookup_insert_ne by done; apply Hs]);
    try apply Hs.
  - apply bool_decide_eq_false in Hmember.
    rewrite Z.geb_leb in Hfull. apply Z.leb_gt in Hfull.
    destruct (Hs _ _ Hip) as [Hcount _].
    rewrite size_union by (by apply disjoint_singleton_r).
    rewrite size_singleton. lia.
  - rewrite size_singleton. lia.
Qed.

Lemma removeSession_bounded ip sid s :
  sessions_bounded config s → sessions_bounded config (removeSession ip sid s).
Proof.
  intros Hs ip' data'. unfold removeSession.
  destruct (sessions s !! ip) as [data|] eqn:Hip; [|apply Hs].
  destruct (bool_decide _); [|apply Hs].
  destruct (Hs _ _ Hip) as [Hcount Hcap].
  assert (size (SessionLimitData.sessionIds data ∖ {[sid]})
          ≤ size (SessionLimitData.sessionIds data))%nat as Hsize
    by (apply subseteq_size, subseteq_difference_l; reflexivity).
  case_match; simpl.
  - intros [_ Hip']%lookup_delete_Some. by apply (Hs ip').
  - destruct (decide (ip = ip')) as [->|Hne];
      [rewrite lookup_insert_eq; intros [= <-]; simpl; lia
      |rewrite lookup_insert_ne by done; apply Hs].
Qed.

Lemma sessions_bounded_of_sessions s s' :
  sessions s' = sessions s → sessions_bounded config s →
  sessions_bounded config s'.
Proof. unfold sessions_bounded. by intros ->. Qed.

Lemma checkLimits_sessions_bounded clk ip sid text cors s :
  sessions_bounded config s →
  sessions_bounded config (checkLimits config clk ip sid text cors s).2.
Proof.
  intros Hs. rewrite checkLimits_unfold. unfold checkLimits_steps.
  set (rq := checkRequestLimit config (atRequestCheck clk) ip s).
  set (tk := checkTokenLimit config (atTokenCheck clk) ip
               (estimateTokens text) rq.2).
  assert (sessions_bounded config rq.2) as Hrq.
  { eapply sessions_bounded_of_sessions; [apply checkRequestLimit_sessions|done]. }
  assert (sessions_bounded config tk.2) as Htk.
  { eapply sessions_bounded_of_sessions; [apply checkTokenLimit_sessions|done]. }
  destruct (LimitCheck.allowed rq.1); simpl; [|done].
  destruct (LimitCheck.allowed tk.1); simpl; [|done].
  pose proof (checkSessionLimit_bounded ip sid tk.2 Htk).
  by destruct (SessionCheck.allowed _).
Qed.

Lemma step_sessions_bounded s op :
  sessions_bounded config s → sessions_bounded config (step config s op).
Proof.
  intros Hs. destruct op; simpl.
  - by apply checkLimits_sessions_bounded.
  - eapply sessions_bounded_of_sessions;
      [apply addRateLimitHeaders_sessions|done].
  - by apply removeSession_bounded.
  - eapply sessions_bounded_of_sessions; [apply checkRequestLimit_sessions|done].
  - eapply sessions_bounded_of_sessions; [apply checkTokenLimit_sessions|done].
  - by apply checkSessionLimit_bounded.
  - done.
  - done.
Qed.

End SessionInvariant.

(** The session bound.  From a new store, under a session limit of at least
    one, every sequence of operations leaves every key with a set of at most
    [sessions_limit] ids, and with an [activeCount] equal to the size of the
    set. *)
Theorem session_set_within_limit (config : RateLimitConfig) (ops : list Op)
    (ip : string) (data : SessionLimitData.t) :
  1 ≤ sessions_limit config →
  sessions (run config ops emptyStore) !! ip = Some data →
  SessionLimitData.activeCount data
  = Z.of_nat (size (SessionLimitData.sessionIds data))
  ∧ Z.of_nat (size (SessionLimitData.sessionIds data)) ≤ sessions_limit config.
Proof.
  intros Hlimit.
  assert (sessions_bounded config emptyStore) as Hempty.
  { intros ip' data'. simpl. by rewrite lookup_empty. }
  revert Hempty. generalize emptyStore as s.
  induction ops as [|op ops IH]; intros s Hs Hdata.
  - destruct (Hs _ _ Hdata) as [Hcount Hcap]. split; [done|lia].
  - simpl in Hdata. eapply IH; [|done]. by apply step_sessions_bounded.
Qed.

Lemma session_set_within_limit_witness :
  let ip := "203.0.113.7" in
  let ops := [CheckSessionLimit ip "s1"; CheckSessionLimit ip "s2";
              CheckSessionLimit ip "s3"; CheckSessionLimit ip "s4";
              RemoveSession ip "s2"; CheckSessionLimit ip "s4"] in
  let data := SessionLimitData.mk 3 ({["s1"]} ∪ {["s3"]} ∪ {["s4"]}) in
  1 ≤ sessions_limit exampleConfig
  ∧ sessions (run exampleConfig ops emptyStore) !! ip = Some data
  ∧ Z.of_nat (size (SessionLimitData.sessionIds data))
    ≤ sessions_limit exampleConfig.
Proof.
  intros ip ops data.
  assert (H1 : 1 ≤ sessions_limit exampleConfig) by (simpl; lia).
  assert (H2 : sessions (run exampleConfig ops emptyStore) !! ip = Some data)
    by (vm_compute; reflexivity).
  split; [exact H1|]. split; [exact H2|].
  exact (proj2 (session_set_within_limit exampleConfig ops ip data H1 H2)).
Defined.

(** ** Window expiry *)

(** C8.  When the stored window of a key has ended ([resetTime ≤ now]), the
    next request check replaces it by a window that counts this one request
    and ends [requests_windowMs] after [now], and the next token check
    replaces it by a window whose usage is this one request's estimate and
    that ends [tokens_windowMs] after [now]; neither depends on what the old
    window had accumulated. *)
Theorem expired_window_starts_fresh (config : RateLimitConfig) (now : Z)
    (ip : string) (estimatedTokens : Z) (s : RateLimitStore) :
  (∀ data, requests s !! ip = Some data →
     RequestLimitData.resetTime data ≤ now →
     requests (checkRequestLimit config now ip s).2 !! ip
     = Some (RequestLimitData.mk 1 (now + requests_windowMs config))
     ∧ LimitCheck.resetTime (checkRequestLimit config now ip s).1
       = now + requests_windowMs config)
  ∧ (∀ data, tokens s !! ip = Some data →
     TokenLimitData.resetTime data ≤ now →
     tokens (checkTokenLimit config now ip estimatedTokens s).2 !! ip
     = Some (TokenLimitData.mk estimatedTokens (now + tokens_windowMs config))
     ∧ LimitCheck.resetTime (checkTokenLimit config now ip estimatedTokens s).1
       = now + tokens_windowMs config).
Proof.
  split; intros data Hip Hended.
  - unfold checkRequestLimit. rewrite Hip, Z.geb_leb.
    apply Z.leb_le in Hended as ->. simpl. by rewrite lookup_insert_eq.
  - unfold checkTokenLimit. rewrite Hip, Z.geb_leb.
    apply Z.leb_le in Hended as ->. simpl. by rewrite lookup_insert_eq.
Qed.

Lemma expired_window_starts_fresh_witness :
  let ip := "203.0.113.7" in
  let s := run exampleConfig
             [CheckRequestLimit 0 ip; CheckRequestLimit 5 ip;
              CheckTokenLimit 0 ip 2000; CheckTokenLimit 5 ip 2000]
             emptyStore in
  let now := 86400000 in
  (requests s !! ip = Some (RequestLimitData.mk 2 3600000)
   ∧ 3600000 ≤ now
   ∧ requests (checkRequestLimit exampleConfig now ip s).2 !! ip
     = Some (RequestLimitData.mk 1 90000000))
  ∧ (tokens s !! ip = Some (TokenLimitData.mk 4000 86400000)
     ∧ 86400000 ≤ now
     ∧ tokens (checkTokenLimit exampleConfig now ip 1500 s).2 !! ip
       = Some (TokenLimitData.mk 1500 172800000)).
Proof.
  intros ip s now.
  assert (H1 : requests s !! ip = Some (RequestLimitData.mk 2 3600000))
    by (vm_compute; reflexivity).
  assert (H2 : 3600000 ≤ now) by (unfold now; lia).
  assert (H3 : tokens s !! ip = Some (TokenLimitData.mk 4000 86400000))
    by (vm_compute; reflexivity).
  assert (H4 : 86400000 ≤ now) by (unfold now; lia).
  pose proof (expired_window_starts_fresh exampleConfig now ip 1500 s)
    as [Hrequests Htokens].
  split.
  - split; [exact H1|]. split; [exact H2|].
    exact (proj1 (Hrequests _ H1 H2)).
  - split; [exact H3|]. split; [exact H4|].
    exact (proj1 (Htokens _ H3 H4)).
Defined.

(** ** The rejection response *)

Section Response.
Variables (clk : Clock) (result : RateLimitResult.t)
          (cors : gmap string string).

Lemma createRateLimitResponse_status :
  status (createRateLimitResponse clk result cors) = 429.
Proof.
  unfold createRateLimitResponse. by destruct (RateLimitResult.type result).
Qed.

Lemma createRateLimitResponse_type :
  body_type (body (createRateLimitResponse clk result cors))
  = RateLimitResult.type result.
Proof.
  unfold createRateLimitResponse. by destruct (RateLimitResult.type result).
Qed.

Lemma createRateLimitResponse_resetTime :
  body_resetTime (body (createRateLimitResponse clk result cors))
  = RateLimitResult.resetTime result.
Proof.
  unfold createRateLimitResponse. by destruct (RateLimitResult.type result).
Qed.

Lemma createRateLimitResponse_headers :
  headers (createRateLimitResponse clk result cors)
  = spread (createRateLimitHeaders (atRetryHeader clk) result) cors.
Proof.
  unfold createRateLimitResponse. by destruct (RateLimitResult.type result).
Qed.

(** A rejection carries [Retry-After], unless the caller's own headers
    replace it. *)
Lemma createRateLimitResponse_retry_after :
  RateLimitResult.allowed result = false →
  cors !! "Retry-After" = None →
  headers (createRateLimitResponse clk result cors) !! "Retry-After"
  = Some (pretty (Math_ceil_div
                    (RateLimitResult.resetTime result - atRetryHeader clk)
                    1000)).
Proof.
  intros Hrejected Hcors. rewrite createRateLimitResponse_headers.
  unfold spread. rewrite lookup_union_r by done.
  unfold createRateLimitHeaders. rewrite Hrejected. simpl.
  by rewrite lookup_insert_eq.
Qed.

End Response.

(** C10.  Whenever the request and token checks admit and the session check
    rejects, [checkLimits] answers with a 429 of type [sessions] whose body
    reports the reset time [Date.now() + 60000], read when the session check
    rejected, and whose [Retry-After] header is 60.  The header is computed
    from a clock reading of its own, and rounds up to 60 seconds as long as
    that reading is less than a second after the first.  The caller's headers
    are spread over the response's and must not replace [Retry-After]. *)
Theorem session_rejection_retry_after (config : RateLimitConfig) (clk : Clock)
    (ip sessionId messageText : string) (cors : gmap string string)
    (s : RateLimitStore) :
  let rq := checkRequestLimit config (atRequestCheck clk) ip s in
  let tk := checkTokenLimit config (atTokenCheck clk) ip
              (estimateTokens messageText) rq.2 in
  let ss := checkSessionLimit config ip sessionId tk.2 in
  LimitCheck.allowed rq.1 = true →
  LimitCheck.allowed tk.1 = true →
  SessionCheck.allowed ss.1 = false →
  atSessionResult clk ≤ atRetryHeader clk < atSessionResult clk + 1000 →
  cors !! "Retry-After" = None →
  ∃ response,
    (checkLimits config clk ip sessionId messageText cors s).1 = Some response
    ∧ status response = 429
    ∧ body_type (body response) = type_sessions
    ∧ body_resetTime (body response) = atSessionResult clk + 60000
    ∧ headers response !! "Retry-After" = Some "60".
Proof.
  intros rq tk ss Hrq Htk Hss Hclock Hcors.
  rewrite checkLimits_unfold. unfold checkLimits_steps.
  fold rq. rewrite Hrq. simpl. fold tk. rewrite Htk. simpl.
  fold ss. rewrite Hss. simpl. eexists. split; [reflexivity|].
  rewrite createRateLimitResponse_status, createRateLimitResponse_type,
    createRateLimitResponse_resetTime.
  rewrite createRateLimitResponse_retry_after by done. simpl.
  do 3 (split; [done|]).
  replace (Math_ceil_div (atSessionResult clk + 60000 - atRetryHeader clk) 1000)
    with 60; [done|].
  symmetry. apply Math_ceil_div_spec; lia.
Qed.

Lemma session_rejection_retry_after_witness :
  let ip := "203.0.113.7" in
  let s := run exampleConfig
             [CheckSessionLimit ip "s1"; CheckSessionLimit ip "s2";
              CheckSessionLimit ip "s3"] emptyStore in
  let clk := mkClock 5000 5000 5001 5999 6000 in
  let rq := checkRequestLimit exampleConfig 5000 ip s in
  let tk := checkTokenLimit exampleConfig 5000 ip 2 rq.2 in
  let ss := checkSessionLimit exampleConfig ip "s4" tk.2 in
  LimitCheck.allowed rq.1 = true
  ∧ LimitCheck.allowed tk.1 = true
  ∧ SessionCheck.allowed ss.1 = false
  ∧ atSessionResult clk ≤ atRetryHeader clk < atSessionResult clk + 1000
  ∧ corsHeaders !! "Retry-After" = None
  ∧ ∃ response,
      (checkLimits exampleConfig clk ip "s4" "Hello" corsHeaders s).1
      = Some response
      ∧ status response = 429
      ∧ body_type (body response) = type_sessions
      ∧ body_resetTime (body response) = 65001
      ∧ headers response !! "Retry-After" = Some "60".
Proof.
  intros ip s clk rq tk ss.
  assert (H1 : LimitCheck.allowed rq.1 = true) by (vm_compute; reflexivity).
  assert (H2 : LimitCheck.allowed tk.1 = true) by (vm_compute; reflexivity).
  assert (H3 : SessionCheck.allowed ss.1 = false) by (vm_compute; reflexivity).
  assert (H4 : atSessionResult clk ≤ atRetryHeader clk
               < atSessionResult clk + 1000) by (simpl; lia).
  assert (H5 : corsHeaders !! "Retry-After" = None)
    by (vm_compute; reflexivity).
  split; [exact H1|]. split; [exact H2|]. split; [exact H3|].
  split; [exact H4|]. split; [exact H5|].
  exact (session_rejection_retry_after exampleConfig clk ip "s4" "Hello"
           corsHeaders s H1 H2 H3 H4 H5).
Defined.

(** ** The order of the admission check *)

Section Locality.
Variable config : RateLimitConfig.

(** The result of a store check is a function of its own map. *)
Lemma checkRequestLimit_local now ip s s' :
  requests s' = requests s →
  (checkRequestLimit config now ip s').1 = (checkRequestLimit config now ip s).1.
Proof. intros Hrequests. unfold checkRequestLimit. rewrite Hrequests.
       by repeat case_match. Qed.

Lemma checkTokenLimit_local now ip est s s' :
  tokens s' = tokens s →
  (checkTokenLimit config now ip est s').1
  = (checkTokenLimit config now ip est s).1.
Proof. intros Htokens. unfold checkTokenLimit. rewrite Htokens.
       by repeat case_match. Qed.

End Locality.

(** C4, as the code has it.  [checkLimits] evaluates the request check, then
    the token check on the store the request check left, then the session
    check on the store the token check left; there is no burst dimension.
    The first check that rejects decides the type of the response, and no
    later check runs:
    - after a request rejection the store is the one before the call, and
      the response is the same for every store with the same request map;
    - after a token rejection the store is the one the token check left, its
      session map is the one before the call, and the response is the same
      for every store with the same request and token maps;
    - after a session rejection the store is the one the token check left;
    - otherwise the request is admitted. *)
Theorem checkLimits_order (config : RateLimitConfig) (clk : Clock)
    (ip sessionId messageText : string) (cors : gmap string string)
    (s : RateLimitStore) :
  let rq := checkRequestLimit config (atRequestCheck clk) ip s in
  let tk := checkTokenLimit config (atTokenCheck clk) ip
              (estimateTokens messageText) rq.2 in
  let ss := checkSessionLimit config ip sessionId tk.2 in
  let out := checkLimits config clk ip sessionId messageText cors in
  match LimitCheck.allowed rq.1, LimitCheck.allowed tk.1,
        SessionCheck.allowed ss.1 with
  | false, _, _ =>
    decision (out s).1 = Some type_requests ∧ (out s).2 = s
    ∧ ∀ s', requests s' = requests s → (out s').1 = (out s).1
  | true, false, _ =>
    decision (out s).1 = Some type_tokens ∧ (out s).2 = tk.2
    ∧ sessions (out s).2 = sessions s
    ∧ ∀ s', requests s' = requests s → tokens s' = tokens s →
        (out s').1 = (out s).1
  | true, true, false =>
    decision (out s).1 = Some type_sessions ∧ (out s).2 = tk.2
  | true, true, true =>
    (out s).1 = None ∧ (out s).2 = ss.2
  end.
Proof.
  intros rq tk ss out.
  assert (∀ s', out s' = checkLimits_steps config clk ip sessionId
                           messageText cors s') as Hout
    by (intros; apply checkLimits_unfold).
  unfold checkLimits_steps in Hout.
  destruct (LimitCheck.allowed rq.1) eqn:Hrq.
  - destruct (LimitCheck.allowed tk.1) eqn:Htk.
    + destruct (SessionCheck.allowed ss.1) eqn:Hss.
      * rewrite Hout. fold rq. rewrite Hrq. simpl. fold tk. rewrite Htk.
        simpl. fold ss. by rewrite Hss.
      * rewrite Hout. fold rq. rewrite Hrq. simpl. fold tk. rewrite Htk.
        simpl. fold ss. rewrite Hss. simpl.
        split; [by unfold decision; simpl; rewrite ?createRateLimitResponse_type|].
        by apply checkSessionLimit_rejected.
    + split; [|split; [|split]].
      * rewrite Hout. fold rq. rewrite Hrq. simpl. fold tk. rewrite Htk.
        simpl. by unfold decision; simpl; rewrite ?createRateLimitResponse_type.
      * rewrite Hout. fold rq. rewrite Hrq. simpl. fold tk. by rewrite Htk.
      * rewrite Hout. fold rq. rewrite Hrq. simpl. fold tk. rewrite Htk.
        simpl. unfold tk. rewrite checkTokenLimit_sessions.
        unfold rq. by rewrite checkRequestLimit_sessions.
      * intros s' Hrequests Htokens. rewrite !Hout.
        rewrite (checkRequestLimit_local config _ _ s s' Hrequests).
        fold rq. rewrite Hrq. simpl.
        assert (tokens (checkRequestLimit config (atRequestCheck clk) ip s').2
                = tokens rq.2) as Hsame.
        { unfold rq. by rewrite !checkRequestLimit_tokens. }
        rewrite (checkTokenLimit_local config _ _ _ _ _ Hsame).
        fold tk. by rewrite Htk.
  - split; [|split].
    + rewrite Hout. fold rq. rewrite Hrq. simpl.
      by unfold decision; simpl; rewrite ?createRateLimitResponse_type.
    + rewrite Hout. fold rq. rewrite Hrq. simpl.
      by apply checkRequestLimit_rejected.
    + intros s' Hrequests. rewrite !Hout.
      rewrite (checkRequestLimit_local config _ _ s s' Hrequests).
      fold rq. by rewrite Hrq.
Qed.

Lemma checkLimits_order_witness :
  let ip := "203.0.113.7" in
  let s := run exampleConfig
             [CheckTokenLimit 0 ip 4999; CheckSessionLimit ip "s1";
              CheckSessionLimit ip "s2"; CheckSessionLimit ip "s3"]
             emptyStore in
  let out := checkLimits exampleConfig (frozen 7) ip "s4" "Hello" corsHeaders in
  decision (out s).1 = Some type_tokens
  ∧ (out s).2
    = (checkTokenLimit exampleConfig 7 ip 2
         (checkRequestLimit exampleConfig 7 ip s).2).2
  ∧ sessions (out s).2 = sessions s
  ∧ ∀ s', requests s' = requests s → tokens s' = tokens s →
      (out s').1 = (out s).1.
Proof.
  intros ip s out.
  exact (checkLimits_order exampleConfig (frozen 7) ip "s4" "Hello"
           corsHeaders s).
Defined.

(** C4, as stated, fails: the burst dimension is not evaluated.  Four
    requests of one client within the same millisecond, under a burst limit
    of three per second: [checkLimits] admits all four, where an evaluation
    that starts with the burst dimension rejects the fourth with type
    [burst]. *)
Lemma burst_dimension_not_evaluated :
  let ip := "203.0.113.7" in
  requests_burstLimit exampleConfig = 3
  ∧ requests_burstWindowMs exampleConfig = 1000
  ∧ decisions (code_admission exampleConfig (frozen 0) ip "s1" "Hello"
                 corsHeaders) 4 emptyStore
    = [None; None; None; None]
  ∧ decisions (spec_admission exampleConfig (frozen 0) ip "s1" "Hello"
                 corsHeaders) 4 (mkSpecStore ∅ emptyStore)
    = [None; None; None; Some type_burst].
Proof. repeat split; vm_compute; reflexivity. Qed.

(** ** The exemption list *)

(** C5, as the code has it.  The exemption list is never consulted.  For a
    key on the list the admission check is the one of the same limits with
    no exemption at all, in its response and in what it writes; so the
    request and token checks apply to it as to any other key, and so does
    the session check: once the key's active count has reached the session
    limit, a session id that is not in its set is rejected. *)
Theorem exempt_key_checked_like_any_other (config : RateLimitConfig)
    (clk : Clock) (ip sessionId messageText : string)
    (cors : gmap string string) (s : RateLimitStore) :
  ip ∈ sessions_exemptIPs config →
  checkLimits config clk ip sessionId messageText cors s
  = checkLimits (without_exemptions config) clk ip sessionId messageText cors s
  ∧ ∀ data, sessions s !! ip = Some data →
      sessionId ∉ SessionLimitData.sessionIds data →
      sessions_limit config ≤ SessionLimitData.activeCount data →
      checkSessionLimit config ip sessionId s = (SessionCheck.mk false 0, s).
Proof.
  intros _. split; [reflexivity|].
  intros data Hip Hsid Hfull. by apply checkSessionLimit_full with data.
Qed.

Lemma exempt_key_checked_like_any_other_witness :
  let ip := "127.0.0.1" in
  let s := run exampleConfig
             [CheckSessionLimit ip "s1"; CheckSessionLimit ip "s2";
              CheckSessionLimit ip "s3"] emptyStore in
  ip ∈ sessions_exemptIPs exampleConfig
  ∧ checkLimits exampleConfig (frozen 0) ip "s4" "Hello" corsHeaders s
    = checkLimits (without_exemptions exampleConfig) (frozen 0) ip "s4" "Hello"
        corsHeaders s
  ∧ checkSessionLimit exampleConfig ip "s4" s = (SessionCheck.mk false 0, s).
Proof.
  intros ip s.
  assert (H1 : ip ∈ sessions_exemptIPs exampleConfig) by apply list_elem_of_here.
  destruct (exempt_key_checked_like_any_other exampleConfig (frozen 0) ip "s4"
              "Hello" corsHeaders s H1) as [Hsame Hcap].
  split; [exact H1|]. split; [exact Hsame|].
  apply (Hcap (SessionLimitData.mk 3 ({["s1"]} ∪ {["s2"]} ∪ {["s3"]}))).
  - vm_compute; reflexivity.
  - simpl. rewrite !elem_of_union, !elem_of_singleton.
    intros [[|]|]; discriminate.
  - simpl. lia.
Defined.

(** C5, as stated, fails: a key on the exemption list is held to the session
    limit.  The loopback address is exempt in [exampleConfig]; after three
    admitted requests with three session ids, its request with a fourth id
    is rejected with type [sessions]. *)
Lemma exempt_key_rejected_on_sessions :
  let ip := "127.0.0.1" in
  let s := run exampleConfig
             [CheckLimits (frozen 0) ip "s1" "Hello" corsHeaders;
              CheckLimits (frozen 0) ip "s2" "Hello" corsHeaders;
              CheckLimits (frozen 0) ip "s3" "Hello" corsHeaders]
             emptyStore in
  ip ∈ sessions_exemptIPs exampleConfig
  ∧ sessions_limit exampleConfig = 3
  ∧ sessions s !! ip
    = Some (SessionLimitData.mk 3 ({["s1"]} ∪ {["s2"]} ∪ {["s3"]}))
  ∧ decision (checkLimits exampleConfig (frozen 0) ip "s4" "Hello"
                corsHeaders s).1
    = Some type_sessions.
Proof.
  split; [apply list_elem_of_here|]. repeat split; vm_compute; reflexivity.
Qed.

(** ** The token budget *)

Section TokenBudget.
Variable config : RateLimitConfig.

(** Within an active window a rejected token check writes nothing, and
    reports what is left of the budget before the call. *)
Lemma checkTokenLimit_rejected_active now ip est s data :
  tokens s !! ip = Some data →
  now < TokenLimitData.resetTime data →
  LimitCheck.allowed (checkTokenLimit config now ip est s).1 = false →
  (checkTokenLimit config now ip est s).2 = s
  ∧ LimitCheck.remaining (checkTokenLimit config now ip est s).1
    = Z.max 0 (tokens_limit config - TokenLimitData.dailyUsage data).
Proof.
  intros Hip Hnow. unfold checkTokenLimit. rewrite Hip, Z.geb_leb.
  apply Z.leb_gt in Hnow as ->. by case_match.
Qed.

(** A token check that adds nothing leaves an active window as it is. *)
Lemma checkTokenLimit_zero_active now ip s data :
  tokens s !! ip = Some data →
  now < TokenLimitData.resetTime data →
  tokens (checkTokenLimit config now ip 0 s).2 = tokens s.
Proof.
  intros Hip Hnow. unfold checkTokenLimit. rewrite Hip, Z.geb_leb.
  apply Z.leb_gt in Hnow as ->. rewrite Z.add_0_r.
  case_match; simpl; [done|]. apply insert_id. rewrite Hip. by destruct data.
Qed.

End TokenBudget.

(** The stored usage stays within the limit as long as no single request
    asks for more than the whole budget: the active-window branch of
    [checkTokenLimit] only stores totals it has checked, and the branch for a
    new window stores the estimate as it comes. *)
Section TokenInvariant.
Variable config : RateLimitConfig.
Hypothesis limit_nonnegative : 0 ≤ tokens_limit config.

Lemma checkTokenLimit_bounded now ip est s :
  est ≤ tokens_limit config →
  tokens_bounded config s →
  tokens_bounded config (checkTokenLimit config now ip est s).2.
Proof.
  intros Hest Hs ip' data'. unfold checkTokenLimit.
  destruct (tokens s !! ip) as [data|] eqn:Hip; simpl;
    [destruct (now >=? TokenLimitData.resetTime data); simpl;
     [|destruct (TokenLimitData.dailyUsage data + est >? tokens_limit config)
         eqn:Hover; simpl]|];
    try (destruct (decide (ip = ip')) as [->|Hne];
         [rewrite lookup_insert_eq; intros [= <-]; simpl
         |rewrite lookup_insert_ne by done; apply Hs]);
    try apply Hs; try done.
  rewrite Z.gtb_ltb in Hover. apply Z.ltb_ge in Hover. lia.
Qed.

Lemma tokens_bounded_of_tokens s s' :
  tokens s' = tokens s → tokens_bounded config s → tokens_bounded config s'.
Proof. unfold tokens_bounded. by intros ->. Qed.

Lemma checkLimits_bounded clk ip sid text cors s :
  estimateTokens text ≤ tokens_limit config →
  tokens_bounded config s →
  tokens_bounded config (checkLimits config clk ip sid text cors s).2.
Proof.
  intros Hest Hs. rewrite checkLimits_unfold. unfold checkLimits_steps.
  set (rq := checkRequestLimit config (atRequestCheck clk) ip s).
  set (tk := checkTokenLimit config (atTokenCheck clk) ip
               (estimateTokens text) rq.2).
  assert (tokens_bounded config rq.2) as Hrq.
  { eapply tokens_bounded_of_tokens; [apply checkRequestLimit_tokens|done]. }
  assert (tokens_bounded config tk.2) as Htk
    by by apply checkTokenLimit_bounded.
  destruct (LimitCheck.allowed rq.1); simpl; [|done].
  destruct (LimitCheck.allowed tk.1); simpl; [|done].
  assert (tokens_bounded config (checkSessionLimit config ip sid tk.2).2).
  { eapply tokens_bounded_of_tokens; [apply checkSessionLimit_tokens|done]. }
  by destruct (SessionCheck.allowed _).
Qed.

Lemma addRateLimitHeaders_bounded clk response ip text s :
  tokens_bounded config s →
  tokens_bounded config (addRateLimitHeaders config clk response ip text s).2.
Proof.
  intros Hs. unfold addRateLimitHeaders.
  pose proof (checkRequestLimit_tokens config (atRequestCheck clk) ip s) as Hrq.
  destruct (checkRequestLimit _ _ _ _) as [rq s1]. simpl in Hrq.
  assert (tokens_bounded config s1) as Hs1
    by by eapply tokens_bounded_of_tokens.
  destruct (truthy text); simpl; [|done].
  pose proof (checkTokenLimit_bounded (atTokenCheck clk) ip 0 s1
                limit_nonnegative Hs1) as Htk.
  by destruct (checkTokenLimit _ _ _ _ _) as [tk s2].
Qed.

Lemma step_tokens_bounded s op :
  within_budget config op →
  tokens_bounded config s → tokens_bounded config (step config s op).
Proof.
  intros Hop Hs. destruct op; simpl in *.
  - by apply checkLimits_bounded.
  - by apply addRateLimitHeaders_bounded.
  - eapply tokens_bounded_of_tokens; [apply removeSession_tokens|done].
  - eapply tokens_bounded_of_tokens; [apply checkRequestLimit_tokens|done].
  - by apply checkTokenLimit_bounded.
  - eapply tokens_bounded_of_tokens; [apply checkSessionLimit_tokens|done].
  - done.
  - intros ip data. unfold tokenCleanup, cleanExpiredEntries. simpl.
    intros [Hip _]%map_lookup_filter_Some. by eapply Hs.
Qed.

End TokenInvariant.

(** The usage bound, for requests within the budget.  From a new store, and
    under a limit that is not negative, every sequence of operations in which
    no admission check and no token check asks for more than the limit leaves
    every stored usage within the limit. *)
Theorem usage_within_limit_for_requests_within_budget
    (config : RateLimitConfig) (ops : list Op) (ip : string)
    (data : TokenLimitData.t) :
  0 ≤ tokens_limit config →
  Forall (within_budget config) ops →
  tokens (run config ops emptyStore) !! ip = Some data →
  TokenLimitData.dailyUsage data ≤ tokens_limit config.
Proof.
  intros Hlimit Hops.
  assert (tokens_bounded config emptyStore) as Hempty.
  { intros ip' data'. simpl. by rewrite lookup_empty. }
  revert Hempty. generalize emptyStore as s.
  induction Hops as [|op ops Hop _ IH]; intros s Hs Hdata.
  - by eapply Hs.
  - simpl in Hdata. eapply IH; [|done]. by apply step_tokens_bounded.
Qed.

Lemma usage_within_limit_for_requests_within_budget_witness :
  let ip := "203.0.113.7" in
  let ops := [CheckLimits (frozen 0) ip "s1" (messageOfLength 8000) corsHeaders;
              CheckLimits (frozen 1) ip "s1" (messageOfLength 8000) corsHeaders;
              CheckLimits (frozen 2) ip "s1" (messageOfLength 8000) corsHeaders] in
  let data := TokenLimitData.mk 4000 86400000 in
  0 ≤ tokens_limit exampleConfig
  ∧ Forall (within_budget exampleConfig) ops
  ∧ tokens (run exampleConfig ops emptyStore) !! ip = Some data
  ∧ TokenLimitData.dailyUsage data ≤ tokens_limit exampleConfig.
Proof.
  intros ip ops data.
  assert (H1 : 0 ≤ tokens_limit exampleConfig) by (simpl; lia).
  assert (H2 : Forall (within_budget exampleConfig) ops)
    by (repeat constructor; vm_compute; discriminate).
  assert (H3 : tokens (run exampleConfig ops emptyStore) !! ip = Some data)
    by (vm_compute; reflexivity).
  split; [exact H1|]. split; [exact H2|]. split; [exact H3|].
  exact (usage_within_limit_for_requests_within_budget exampleConfig ops ip
           data H1 H2 H3).
Defined.

(** C2 at the inputs where the code departs from it.  On a key without a
    window, and on a key whose window has ended, a token check for more than
    the limit is rejected and nevertheless stores the rejected estimate as
    the usage of a new window; the remaining quota it reports is 0. *)
Lemma rejected_token_check_stores_estimate :
  let ip := "203.0.113.7" in
  checkTokenLimit exampleConfig 0 ip 5001 emptyStore
  = (LimitCheck.mk false 0 86400000,
     set_tokens emptyStore {[ip := TokenLimitData.mk 5001 86400000]})
  ∧ let s := set_tokens emptyStore {[ip := TokenLimitData.mk 4000 86400000]} in
    checkTokenLimit exampleConfig 86400000 ip 6000 s
    = (LimitCheck.mk false 0 172800000,
       set_tokens emptyStore {[ip := TokenLimitData.mk 6000 172800000]}).
Proof. split; vm_compute; reflexivity. Qed.

(** C3 at the input where the code departs from it.  A first message of
    20001 characters is estimated at 5001 units; [checkLimits] rejects it
    with type [tokens] and leaves a usage of 5001 in a window that is active
    until the next day, above the limit of 5000.  A two-unit message one
    minute later is then rejected as well. *)
Lemma stored_usage_exceeds_limit :
  let ip := "203.0.113.7" in
  let out := checkLimits exampleConfig (frozen 0) ip "s1"
               (messageOfLength 20001) corsHeaders emptyStore in
  estimateTokens (messageOfLength 20001) = 5001
  ∧ tokens_limit exampleConfig = 5000
  ∧ decision out.1 = Some type_tokens
  ∧ tokens out.2 !! ip = Some (TokenLimitData.mk 5001 86400000)
  ∧ decision (checkLimits exampleConfig (frozen 60000) ip "s1" "Hello"
                corsHeaders out.2).1
    = Some type_tokens.
Proof. repeat split; vm_compute; reflexivity. Qed.

(** ** The informational headers *)

(** C1 at the input where the code departs from it.  The first request of a
    client is admitted with a request count of 1; computing the headers for
    its response calls [checkRequestLimit] again and leaves a count of 2.
    With a limit of 10, the sixth request of the hour is rejected. *)
Lemma headers_count_the_request_again :
  let ip := "203.0.113.7" in
  let admitted := checkLimits exampleConfig (frozen 0) ip "s1" "Hello"
                    corsHeaders emptyStore in
  let decorated := addRateLimitHeaders exampleConfig (frozen 0) corsHeaders ip
                     (Some "Hello") admitted.2 in
  admitted.1 = None
  ∧ requests admitted.2 !! ip = Some (RequestLimitData.mk 1 3600000)
  ∧ requests decorated.2 !! ip = Some (RequestLimitData.mk 2 3600000)
  ∧ decorated.1 !! "X-RateLimit-Requests-Remaining" = Some "8"
  ∧ requests_limit exampleConfig = 10
  ∧ decisions (route_admission exampleConfig (frozen 0) (frozen 0) ip "s1"
                 "Hello") 6 emptyStore
    = [None; None; None; None; None; Some type_requests].
Proof. repeat split; vm_compute; reflexivity. Qed.

(** What the header computation does leave alone: the session map always,
    and the usage of a token window that is still active. *)
Lemma addRateLimitHeaders_leaves (config : RateLimitConfig) (clk : Clock)
    (response : gmap string string) (ip : string) (messageText : option string)
    (s : RateLimitStore) (data : TokenLimitData.t) :
  tokens s !! ip = Some data →
  atTokenCheck clk < TokenLimitData.resetTime data →
  sessions (addRateLimitHeaders config clk response ip messageText s).2
  = sessions s
  ∧ tokens (addRateLimitHeaders config clk response ip messageText s).2
    = tokens s.
Proof.
  intros Hip Hactive. split; [apply addRateLimitHeaders_sessions|].
  unfold addRateLimitHeaders.
  pose proof (checkRequestLimit_tokens config (atRequestCheck clk) ip s) as Hrq.
  destruct (checkRequestLimit _ _ _ _) as [rq s1]. simpl in Hrq.
  destruct (truthy messageText); simpl; [|done].
  pose proof (checkTokenLimit_zero_active config (atTokenCheck clk) ip s1 data)
    as Htk.
  destruct (checkTokenLimit _ _ _ _ _) as [tk s2]. simpl in *.
  rewrite Htk; [done|by rewrite Hrq|done].
Qed.

(** * Further properties of the code *)

(** ** The client key *)

Section Trim.

Lemma trimStart_units s c : c ∈ codeUnits (trimStart s) → c ∈ codeUnits s.
Proof.
  induction s as [|a s IH]; simpl; [done|].
  destruct (isWhiteSpace a); simpl; [|done].
  intros Hc. right. by apply IH.
Qed.

Lemma trimEnd_units s c : c ∈ codeUnits (trimEnd s) → c ∈ codeUnits s.
Proof.
  induction s as [|a s IH]; simpl; [done|].
  destruct (trimEnd s) as [|b kept]; simpl in *.
  - destruct (isWhiteSpace a); simpl; [by intros ?%elem_of_nil|].
    intros ->%list_elem_of_singleton. by left.
  - intros [->|Hc]%elem_of_cons; [by left|]. right. by apply IH.
Qed.

Lemma split_comma_first_units s : comma ∉ codeUnits (split_comma_first s).
Proof.
  induction s as [|a s IH]; simpl; [apply not_elem_of_nil|].
  destruct (Ascii.eqb a comma) eqn:Ha; simpl; [apply not_elem_of_nil|].
  apply not_elem_of_cons. split; [|done].
  intros <-. by rewrite Ascii.eqb_refl in Ha.
Qed.

Lemma split_comma_first_app a rest :
  comma ∉ codeUnits a → split_comma_first (a +:+ String comma rest) = a.
Proof.
  induction a as [|c a IH]; intros Ha.
  - reflexivity.
  - change (String c a +:+ String comma rest)
      with (String c (a +:+ String comma rest)).
    simpl in *. apply not_elem_of_cons in Ha as [Hc Ha].
    destruct (Ascii.eqb c comma) eqn:Heq.
    + by apply Ascii.eqb_eq in Heq as ->.
    + by rewrite IH.
Qed.

Lemma trimStart_head s c :
  head (codeUnits (trimStart s)) = Some c → isWhiteSpace c = false.
Proof.
  induction s as [|a s IH]; simpl; [done|].
  destruct (isWhiteSpace a) eqn:Ha; simpl; [done|]. by intros [= <-].
Qed.

Lemma trimEnd_head s :
  trimEnd s ≠ "" → head (codeUnits (trimEnd s)) = head (codeUnits s).
Proof.
  destruct s as [|a s]; simpl; [done|].
  destruct (trimEnd s); [destruct (isWhiteSpace a)|]; done.
Qed.

Lemma trimEnd_last s c :
  last (codeUnits (trimEnd s)) = Some c → isWhiteSpace c = false.
Proof.
  induction s as [|a s IH]; simpl; [done|].
  destruct (trimEnd s) as [|b kept]; simpl in *.
  - destruct (isWhiteSpace a) eqn:Ha; simpl; [done|]. by intros [= <-].
  - done.
Qed.

Lemma trimStart_blank s : trimStart s = "" ↔ blank s.
Proof.
  unfold blank. induction s as [|a s IH]; simpl; [by split; [constructor|]|].
  destruct (isWhiteSpace a) eqn:Ha.
  - rewrite IH. split; [by constructor|]. by intros [_ ?]%Forall_cons.
  - split; [done|]. intros [? _]%Forall_cons. congruence.
Qed.

Lemma trimEnd_blank s : trimEnd s = "" ↔ blank s.
Proof.
  unfold blank. induction s as [|a s IH]; simpl; [by split; [constructor|]|].
  destruct (trimEnd s) as [|b kept].
  - destruct (isWhiteSpace a) eqn:Ha.
    + split; [|done]. intros _. constructor; [done|]. by apply IH.
    + split; [done|]. intros [? _]%Forall_cons. congruence.
  - split; [done|]. intros [_ Hs]%Forall_cons. by apply IH in Hs.
Qed.

Lemma trim_blank s : trim s = "" ↔ blank s.
Proof.
  unfold trim. rewrite trimEnd_blank, <- (trimStart_blank s). split.
  - intros Hblank. destruct (trimStart s) as [|c kept] eqn:Hs; [done|].
    apply Forall_cons in Hblank as [Hc _].
    assert (isWhiteSpace c = false); [|congruence].
    apply (trimStart_head s). by rewrite Hs.
  - intros ->. constructor.
Qed.

End Trim.

Lemma truthy_Some text : truthy (Some text) = true ↔ text ≠ "".
Proof.
  simpl. rewrite negb_true_iff, bool_decide_eq_false. done.
Qed.

(** The key of a request behind a proxy.  When [x-forwarded-for] is present
    and not empty, the key is its first entry without the surrounding white
    space, whatever the other headers say: it holds no comma and neither
    starts nor ends with white space. *)
Theorem getClientIP_forwarded (request : NextRequest) (forwarded : string) :
  headers_get request "x-forwarded-for" = Some forwarded →
  forwarded ≠ "" →
  getClientIP request = trim (split_comma_first forwarded)
  ∧ (comma ∉ codeUnits (getClientIP request))
  ∧ (∀ c, head (codeUnits (getClientIP request)) = Some c →
          isWhiteSpace c = false)
  ∧ (∀ c, last (codeUnits (getClientIP request)) = Some c →
          isWhiteSpace c = false).
Proof.
  intros Hforwarded Hnonempty.
  assert (getClientIP request = trim (split_comma_first forwarded)) as ->.
  { unfold getClientIP. rewrite Hforwarded.
    by apply truthy_Some in Hnonempty as ->. }
  split; [done|]. split; [|split].
  - intros Hcomma. apply (split_comma_first_units forwarded).
    by apply trimStart_units, trimEnd_units.
  - intros c Hc. unfold trim in Hc.
    destruct (decide (trimEnd (trimStart (split_comma_first forwarded)) = ""))
      as [Hempty|Hfilled]; [by rewrite Hempty in Hc|].
    rewrite trimEnd_head in Hc by done. by eapply trimStart_head.
  - intros c Hc. by eapply trimEnd_last.
Qed.

Lemma getClientIP_forwarded_witness :
  let request :=
    mkRequest {[ "x-forwarded-for" := " 203.0.113.7 , 10.0.0.1";
                 "x-real-ip" := "198.51.100.2" ]} in
  headers_get request "x-forwarded-for" = Some " 203.0.113.7 , 10.0.0.1"
  ∧ " 203.0.113.7 , 10.0.0.1" ≠ ""
  ∧ getClientIP request = "203.0.113.7"
  ∧ comma ∉ codeUnits (getClientIP request).
Proof.
  intros request.
  assert (H1 : headers_get request "x-forwarded-for"
               = Some " 203.0.113.7 , 10.0.0.1") by (vm_compute; reflexivity).
  assert (H2 : " 203.0.113.7 , 10.0.0.1" ≠ "") by discriminate.
  destruct (getClientIP_forwarded request _ H1 H2) as (Hkey & Hcomma & _).
  split; [exact H1|]. split; [exact H2|]. split; [exact Hkey|exact Hcomma].
Defined.

(** Everything after the first comma of [x-forwarded-for] is ignored, and so
    are the other headers: a request that names [a] as its first entry gets
    the key [trim a], whatever follows. *)
Theorem getClientIP_later_hops_ignored (others : gmap string string)
    (a rest : string) :
  a ≠ "" →
  comma ∉ codeUnits a →
  getClientIP
    (mkRequest (<["x-forwarded-for" := a +:+ String comma rest]> others))
  = trim a.
Proof.
  intros Hnonempty Hcomma. unfold getClientIP, headers_get. simpl.
  rewrite lookup_insert_eq.
  assert (a +:+ String comma rest ≠ "") as ->%truthy_Some
    by by destruct a.
  simpl. by rewrite split_comma_first_app.
Qed.

Lemma getClientIP_later_hops_ignored_witness :
  "203.0.113.7" ≠ ""
  ∧ (comma ∉ codeUnits "203.0.113.7")
  ∧ getClientIP
      (mkRequest (<["x-forwarded-for" := "203.0.113.7" +:+ String comma " 10.0.0.1"]>
                    {[ "cf-connecting-ip" := "198.51.100.2" ]}))
    = "203.0.113.7".
Proof.
  assert (H1 : "203.0.113.7" ≠ "") by discriminate.
  assert (H2 : comma ∉ codeUnits "203.0.113.7").
  { apply (bool_decide_unpack _). vm_compute. exact I. }
  split; [exact H1|]. split; [exact H2|].
  exact (getClientIP_later_hops_ignored _ "203.0.113.7" " 10.0.0.1" H1 H2).
Defined.

(** The key is the empty string exactly when [x-forwarded-for] is present,
    not empty, and blank before its first comma; every such request shares
    that one key. *)
Theorem getClientIP_empty_iff (request : NextRequest) :
  getClientIP request = ""
  ↔ ∃ forwarded, headers_get request "x-forwarded-for" = Some forwarded
      ∧ forwarded ≠ "" ∧ blank (split_comma_first forwarded).
Proof.
  unfold getClientIP.
  destruct (headers_get request "x-forwarded-for") as [forwarded|] eqn:Hf.
  - destruct (truthy (Some forwarded)) eqn:Htruthy.
    + apply truthy_Some in Htruthy. simpl. rewrite trim_blank.
      split; [by exists forwarded|]. by intros (? & [= <-] & _ & ?).
    + assert (forwarded = "") as ->.
      { destruct (decide (forwarded = "")) as [|Hne]; [done|].
        apply truthy_Some in Hne. congruence. }
      split; [|by intros (? & [= <-] & ? & _)].
      destruct (headers_get request "x-real-ip") as [realIP|];
        [destruct (truthy (Some realIP)) eqn:Hreal;
         [apply truthy_Some in Hreal; simpl; congruence|]|];
        (destruct (headers_get request "cf-connecting-ip") as [cfIP|];
         [destruct (truthy (Some cfIP)) eqn:Hcf;
          [apply truthy_Some in Hcf; simpl; congruence|]|]);
        simpl; discriminate.
  - simpl. split; [|by intros (? & ? & _)].
    destruct (headers_get request "x-real-ip") as [realIP|];
      [destruct (truthy (Some realIP)) eqn:Hreal;
       [apply truthy_Some in Hreal; simpl; congruence|]|];
      (destruct (headers_get request "cf-connecting-ip") as [cfIP|];
       [destruct (truthy (Some cfIP)) eqn:Hcf;
        [apply truthy_Some in Hcf; simpl; congruence|]|]);
      simpl; discriminate.
Qed.

(** ** Sessions of a request *)

Lemma getSessionId_anonymous randomUUID request :
  anonymous request → getSessionId randomUUID request = randomUUID.
Proof. intros [Hx Hs]. unfold getSessionId. by rewrite Hx, Hs. Qed.

Section SessionSteps.
Variable config : RateLimitConfig.

(** What the session check does depends on the session map alone. *)
Lemma checkSessionLimit_local ip sid s s' :
  sessions s' = sessions s →
  (checkSessionLimit config ip sid s').1 = (checkSessionLimit config ip sid s).1
  ∧ sessions (checkSessionLimit config ip sid s').2
    = sessions (checkSessionLimit config ip sid s).2.
Proof.
  intros Hsessions. unfold checkSessionLimit. rewrite Hsessions.
  repeat case_match; simpl; by rewrite ?Hsessions.
Qed.

(** The session map after [checkLimits]: the one the session check leaves
    when the request is admitted, the one before the call otherwise. *)
Lemma checkLimits_sessions clk ip sid text cors s :
  ((checkLimits config clk ip sid text cors s).1 = None
   ∧ SessionCheck.allowed (checkSessionLimit config ip sid s).1 = true
   ∧ sessions (checkLimits config clk ip sid text cors s).2
     = sessions (checkSessionLimit config ip sid s).2)
  ∨ ((checkLimits config clk ip sid text cors s).1 ≠ None
     ∧ sessions (checkLimits config clk ip sid text cors s).2 = sessions s).
Proof.
  rewrite checkLimits_unfold. unfold checkLimits_steps.
  set (rq := checkRequestLimit config (atRequestCheck clk) ip s).
  set (tk := checkTokenLimit config (atTokenCheck clk) ip
               (estimateTokens text) rq.2).
  assert (sessions rq.2 = sessions s) as Hrq
    by apply checkRequestLimit_sessions.
  assert (sessions tk.2 = sessions s) as Htk.
  { unfold tk. by rewrite checkTokenLimit_sessions. }
  destruct (LimitCheck.allowed rq.1); simpl; [|by right].
  destruct (LimitCheck.allowed tk.1); simpl; [|by right].
  destruct (checkSessionLimit_local ip sid s tk.2 Htk) as [Hresult Hmap].
  destruct (SessionCheck.allowed (checkSessionLimit config ip sid tk.2).1)
    eqn:Hss; simpl.
  - left. split; [done|]. split; [congruence|done].
  - right. split; [done|].
    rewrite checkSessionLimit_rejected by done. done.
Qed.

(** An admitted id that the key did not hold is added to its set, and
    counted. *)
Lemma checkSessionLimit_admits_new ip sid s :
  sid ∉ sessionIdsOf s ip →
  SessionCheck.allowed (checkSessionLimit config ip sid s).1 = true →
  sessionIdsOf (checkSessionLimit config ip sid s).2 ip
  = sessionIdsOf s ip ∪ {[sid]}
  ∧ activeCountOf (checkSessionLimit config ip sid s).2 ip
    = activeCountOf s ip + 1
  ∧ sessionRoom config (checkSessionLimit config ip sid s).2 ip
    ≤ sessionRoom config s ip - 1.
Proof.
  unfold sessionIdsOf, activeCountOf, sessionRoom, checkSessionLimit.
  destruct (sessions s !! ip) as [data|] eqn:Hip;
    cbn [fst snd sessions set_sessions SessionCheck.allowed].
  - intros Hnew. rewrite bool_decide_eq_false_2 by done.
    destruct (SessionLimitData.activeCount data >=? sessions_limit config)
      eqn:Hfull; cbn [fst snd sessions set_sessions SessionCheck.allowed];
      [done|].
    intros _. rewrite lookup_insert_eq.
    cbn [SessionLimitData.activeCount SessionLimitData.sessionIds].
    rewrite Z.geb_leb in Hfull. apply Z.leb_gt in Hfull.
    split; [done|]. split; [done|]. lia.
  - intros _ _. rewrite lookup_insert_eq.
    cbn [SessionLimitData.activeCount SessionLimitData.sessionIds].
    split; [by rewrite (left_id_L ∅ (∪))|]. split; [done|]. lia.
Qed.

End SessionSteps.

Lemma sessions_views config s s' ip :
  sessions s' = sessions s →
  sessionIdsOf s' ip = sessionIdsOf s ip
  ∧ activeCountOf s' ip = activeCountOf s ip
  ∧ sessionRoom config s' ip = sessionRoom config s ip.
Proof. unfold sessionIdsOf, activeCountOf, sessionRoom. by intros ->. Qed.

(** A request without a session header takes a new slot.  When such a
    request is admitted, the identifier generated for it, which the key did
    not hold, is added to the key's session set and the recorded count grows
    by one. *)
Theorem anonymous_request_takes_a_slot (config : RateLimitConfig) (clk : Clock)
    (randomUUID : string) (request : NextRequest) (messageText : string)
    (cors : gmap string string) (s : RateLimitStore) :
  let ip := getClientIP request in
  let out := checkLimits_request config clk randomUUID request messageText
               cors s in
  anonymous request →
  randomUUID ∉ sessionIdsOf s ip →
  out.1 = None →
  sessionIdsOf out.2 ip = sessionIdsOf s ip ∪ {[randomUUID]}
  ∧ activeCountOf out.2 ip = activeCountOf s ip + 1.
Proof.
  intros ip out Hanonymous Hnew Hadmitted. unfold out, checkLimits_request in *.
  rewrite getSessionId_anonymous in * by done. fold ip in Hadmitted |- *.
  destruct (checkLimits_sessions config clk ip randomUUID messageText cors s)
    as [(_ & Hallowed & Hmap)|[Hrejected _]]; [|done].
  destruct (sessions_views config _ _ ip Hmap) as (-> & -> & _).
  destruct (checkSessionLimit_admits_new config ip randomUUID s Hnew Hallowed)
    as (? & ? & _). done.
Qed.

Lemma anonymous_request_takes_a_slot_witness :
  let request := mkRequest {[ "x-forwarded-for" := "203.0.113.7" ]} in
  let s := (checkLimits_request exampleConfig (frozen 0) "uuid-1" request
              "Hello" corsHeaders emptyStore).2 in
  let out := checkLimits_request exampleConfig (frozen 1) "uuid-2" request
               "Hello" corsHeaders s in
  anonymous request
  ∧ ("uuid-2" ∉ sessionIdsOf s "203.0.113.7")
  ∧ out.1 = None
  ∧ sessionIdsOf out.2 "203.0.113.7" = {["uuid-1"]} ∪ {["uuid-2"]}
  ∧ activeCountOf out.2 "203.0.113.7" = 2.
Proof.
  intros request s out.
  assert (H1 : anonymous request) by (split; vm_compute; reflexivity).
  assert (H2 : "uuid-2" ∉ sessionIdsOf s (getClientIP request)).
  { apply (bool_decide_unpack _). vm_compute. exact I. }
  assert (H3 : out.1 = None) by (vm_compute; reflexivity).
  destruct (anonymous_request_takes_a_slot exampleConfig (frozen 1) "uuid-2"
              request "Hello" corsHeaders s H1 H2 H3) as [Hids Hcount].
  split; [exact H1|]. split; [exact H2|]. split; [exact H3|].
  split; [exact Hids|exact Hcount].
Defined.

(** Releasing through the facade needs the session header.  For a request
    without one, [removeSession] looks for a newly generated identifier, which
    the key does not hold, and leaves the store as it is. *)
Theorem anonymous_release_changes_nothing (randomUUID : string)
    (request : NextRequest) (s : RateLimitStore) :
  anonymous request →
  randomUUID ∉ sessionIdsOf s (getClientIP request) →
  removeSession_request randomUUID request s = s.
Proof.
  intros Hanonymous Hnew.
  unfold removeSession_request, RateLimiter_removeSession, removeSession.
  rewrite getSessionId_anonymous by done. unfold sessionIdsOf in Hnew.
  destruct (sessions s !! getClientIP request); [|done].
  by rewrite bool_decide_eq_false_2.
Qed.

Lemma anonymous_release_changes_nothing_witness :
  let request := mkRequest {[ "x-forwarded-for" := "203.0.113.7" ]} in
  let s := (checkLimits_request exampleConfig (frozen 0) "uuid-1" request
              "Hello" corsHeaders emptyStore).2 in
  anonymous request
  ∧ ("uuid-2" ∉ sessionIdsOf s (getClientIP request))
  ∧ removeSession_request "uuid-2" request s = s.
Proof.
  intros request s.
  assert (H1 : anonymous request) by (split; vm_compute; reflexivity).
  assert (H2 : "uuid-2" ∉ sessionIdsOf s (getClientIP request)).
  { apply (bool_decide_unpack _). vm_compute. exact I. }
  split; [exact H1|]. split; [exact H2|].
  exact (anonymous_release_changes_nothing "uuid-2" request s H1 H2).
Defined.

(** ** A conversation without a session header *)

Lemma answered_cons outcome outcomes :
  answered (outcome :: outcomes)
  = ((if isAnswered outcome then 1 else 0) + answered outcomes)%nat.
Proof.
  unfold answered. destruct (isAnswered outcome) eqn:Houtcome.
  - by rewrite filter_cons_True.
  - rewrite filter_cons_False; [done|]. by rewrite Houtcome.
Qed.

(** One call of [POST] for a request without a session header, with an
    identifier the key does not hold: an answer costs the key one of the
    sessions it has room for, and no outcome gives room back. *)
Lemma POST_anonymous config clkCheck clkHeaders randomUUID request json
    conversation s :
  let ip := getClientIP request in
  let out := POST config clkCheck clkHeaders randomUUID request json
               conversation s in
  anonymous request →
  randomUUID ∉ sessionIdsOf s ip →
  sessionRoom config out.2 ip
  ≤ sessionRoom config s ip - (if isAnswered out.1 then 1 else 0)
  ∧ sessionIdsOf out.2 ip ⊆ sessionIdsOf s ip ∪ {[randomUUID]}.
Proof.
  intros ip out Hanonymous Hnew. unfold out, POST.
  destruct json as [[messages|]|]; simpl; [|split; [lia|set_solver]..].
  case_bool_decide; simpl; [split; [lia|set_solver]|].
  unfold checkLimits_request. rewrite getSessionId_anonymous by done.
  fold ip.
  destruct (checkLimits_sessions config clkCheck ip randomUUID
              (latestMessageText messages) corsHeaders s)
    as [(Hadmitted & Hallowed & Hmap)|[Hrejected Hmap]];
    destruct (checkLimits config clkCheck ip randomUUID
                (latestMessageText messages) corsHeaders s) as [r s1];
    simpl in *; subst.
  - destruct (checkSessionLimit_admits_new config ip randomUUID s Hnew Hallowed)
      as (Hids & _ & Hroom).
    destruct conversation as [response|].
    + unfold addRateLimitHeaders_request. fold ip.
      pose proof (addRateLimitHeaders_sessions config clkHeaders response ip
                    (Some (latestMessageText messages)) s1) as Hheaders.
      destruct (addRateLimitHeaders _ _ _ _ _ _) as [h s2]. simpl in *.
      destruct (sessions_views config _ s2 ip (eq_trans Hheaders Hmap))
        as (-> & _ & ->).
      split; [lia|]. by rewrite Hids.
    + simpl. destruct (sessions_views config _ s1 ip Hmap) as (-> & _ & ->).
      split; [lia|]. by rewrite Hids.
  - destruct r as [response|]; [|done]. simpl.
    destruct (sessions_views config s s1 ip Hmap) as (-> & _ & ->).
    split; [lia|set_solver].
Qed.

Lemma chat_cons config request call calls s :
  let out := POST config (call_clkCheck call) (call_clkHeaders call)
               (call_randomUUID call) request (Some (Some (call_messages call)))
               (call_conversation call) s in
  (chat config request (call :: calls) s).1
  = out.1 :: (chat config request calls out.2).1.
Proof.
  intros out. subst out. cbn [chat].
  destruct (POST config (call_clkCheck call) (call_clkHeaders call)
              (call_randomUUID call) request (Some (Some (call_messages call)))
              (call_conversation call) s) as [outcome s1].
  cbn [fst snd]. by destruct (chat config request calls s1).
Qed.

(** How many messages a client without a session header gets answered.  The
    chat widget sends no session header, so every call of [POST] runs the
    session check with a new identifier: whatever the messages, the clocks
    and the outcomes of the conversations, the calls that are answered are
    no more than the sessions the key still has room for, which is the
    session limit for a key without an entry. *)
Theorem chat_answers_within_session_room (config : RateLimitConfig)
    (request : NextRequest) (calls : list ChatCall) (s : RateLimitStore) :
  anonymous request →
  NoDup (call_randomUUID <$> calls) →
  Forall (λ call, call_randomUUID call ∉ sessionIdsOf s (getClientIP request))
         calls →
  Z.of_nat (answered (chat config request calls s).1)
  ≤ sessionRoom config s (getClientIP request).
Proof.
  intros Hanonymous. revert s.
  induction calls as [|call calls IH]; intros s Hdistinct Hnew.
  - change (Z.of_nat 0 ≤ sessionRoom config s (getClientIP request)).
    unfold sessionRoom. case_match; lia.
  - apply NoDup_cons in Hdistinct as [Hfirst Hdistinct].
    apply Forall_cons in Hnew as [Hcall Hnew].
    rewrite chat_cons, answered_cons.
    pose proof (POST_anonymous config (call_clkCheck call)
                  (call_clkHeaders call) (call_randomUUID call) request
                  (Some (Some (call_messages call))) (call_conversation call)
                  s Hanonymous Hcall) as [Hroom Hids].
    set (out := POST config (call_clkCheck call) (call_clkHeaders call)
                  (call_randomUUID call) request
                  (Some (Some (call_messages call))) (call_conversation call)
                  s) in *.
    cbv zeta in Hroom, Hids.
    assert (Forall (λ call', call_randomUUID call'
                             ∉ sessionIdsOf out.2 (getClientIP request)) calls)
      as Hnew1.
    { apply Forall_forall. intros call' Hin Hheld.
      apply Hids, elem_of_union in Hheld as [Hheld|Heq%elem_of_singleton].
      - by eapply Forall_forall in Hnew.
      - apply Hfirst. rewrite <- Heq. by apply list_elem_of_fmap_2. }
    specialize (IH out.2 Hdistinct Hnew1).
    destruct (isAnswered out.1); lia.
Qed.

Lemma chat_answers_within_session_room_witness :
  let request := mkRequest {[ "x-forwarded-for" := "203.0.113.7" ]} in
  let call n :=
    mkCall (frozen n) (frozen n) ("uuid-" +:+ pretty n)
           [mkMessage "user" "Hello"] (Some corsHeaders) in
  let calls := [call 1; call 2; call 3; call 4; call 5] in
  anonymous request
  ∧ NoDup (call_randomUUID <$> calls)
  ∧ Forall (λ call, call_randomUUID call
                    ∉ sessionIdsOf emptyStore (getClientIP request)) calls
  ∧ isAnswered <$> (chat exampleConfig request calls emptyStore).1
    = [true; true; true; false; false]
  ∧ Z.of_nat (answered (chat exampleConfig request calls emptyStore).1) ≤ 3.
Proof.
  intros request call calls.
  assert (H1 : anonymous request) by (split; vm_compute; reflexivity).
  assert (H2 : NoDup (call_randomUUID <$> calls)).
  { apply (bool_decide_unpack _). vm_compute. exact I. }
  assert (H3 : Forall (λ call, call_randomUUID call
                  ∉ sessionIdsOf emptyStore (getClientIP request)) calls).
  { apply Forall_forall. intros ? _. apply not_elem_of_empty. }
  split; [exact H1|]. split; [exact H2|]. split; [exact H3|].
  split; [vm_compute; reflexivity|].
  exact (chat_answers_within_session_room exampleConfig request calls
           emptyStore H1 H2 H3).
Defined.

(** ** Releasing a session *)

Section SessionCounts.
Variable config : RateLimitConfig.

Lemma counted_of_sessions s s' :
  sessions s' = sessions s → sessions_counted s → sessions_counted s'.
Proof. unfold sessions_counted. by intros ->. Qed.

Lemma checkSessionLimit_counted ip sid s :
  sessions_counted s → sessions_counted (checkSessionLimit config ip sid s).2.
Proof.
  intros Hs ip' data'. unfold checkSessionLimit.
  destruct (sessions s !! ip) as [data|] eqn:Hip;
    [destruct (bool_decide (sid ∈ SessionLimitData.sessionIds data))
       eqn:Hmember;
     [|destruct (SessionLimitData.activeCount data >=? sessions_limit config)]|];
    cbn [snd sessions set_sessions];
    try (destruct (decide (ip = ip')) as [->|Hne];
         [rewrite lookup_insert_eq; intros [= <-];
          cbn [SessionLimitData.activeCount SessionLimitData.sessionIds]
         |rewrite lookup_insert_ne by done; apply Hs]);
    try apply Hs.
  - apply bool_decide_eq_false in Hmember.
    destruct (Hs _ _ Hip) as [Hcount Hfilled].
    rewrite size_union by (by apply disjoint_singleton_r).
    rewrite size_singleton. lia.
  - rewrite size_singleton. lia.
Qed.

Lemma removeSession_counted ip sid s :
  sessions_counted s → sessions_counted (removeSession ip sid s).
Proof.
  intros Hs ip' data'. unfold removeSession.
  destruct (sessions s !! ip) as [data|] eqn:Hip; [|apply Hs].
  destruct (bool_decide _); [|apply Hs].
  cbn [SessionLimitData.activeCount].
  destruct (Z.of_nat (size (SessionLimitData.sessionIds data ∖ {[sid]})) =? 0)
    eqn:Hleft; cbn [sessions set_sessions].
  - intros [_ Hip']%lookup_delete_Some. by apply (Hs ip').
  - apply Z.eqb_neq in Hleft.
    destruct (decide (ip = ip')) as [->|Hne];
      [rewrite lookup_insert_eq; intros [= <-];
       cbn [SessionLimitData.activeCount SessionLimitData.sessionIds]; lia
      |rewrite lookup_insert_ne by done; apply Hs].
Qed.

Lemma step_counted s op :
  sessions_counted s → sessions_counted (step config s op).
Proof.
  intros Hs. destruct op; simpl.
  - destruct (checkLimits_sessions config clk ip sessionId messageText cors s)
      as [(_ & _ & Hmap)|[_ Hmap]];
      (eapply counted_of_sessions; [exact Hmap|]); [|done].
    by apply checkSessionLimit_counted.
  - eapply counted_of_sessions; [apply addRateLimitHeaders_sessions|done].
  - by apply removeSession_counted.
  - eapply counted_of_sessions; [apply checkRequestLimit_sessions|done].
  - eapply counted_of_sessions; [apply checkTokenLimit_sessions|done].
  - by apply checkSessionLimit_counted.
  - done.
  - done.
Qed.

Lemma run_counted ops s :
  sessions_counted s → sessions_counted (run config ops s).
Proof.
  revert s. induction ops as [|op ops IH]; intros s Hs; [done|].
  apply IH. by apply step_counted.
Qed.

Lemma emptyStore_counted : sessions_counted emptyStore.
Proof. intros ip data. simpl. by rewrite lookup_empty. Qed.

End SessionCounts.

Lemma set_sessions_same s m m' :
  m' = sessions s → set_sessions (set_sessions s m) m' = s.
Proof. intros ->. by destruct s. Qed.

(** Releasing a session makes room for another.  When a key holds no more
    ids than the limit, the release of one of them is followed by the
    admission of an id the key did not hold. *)
Theorem release_frees_a_slot (config : RateLimitConfig) (ip released next : string)
    (s : RateLimitStore) (data : SessionLimitData.t) :
  sessions s !! ip = Some data →
  released ∈ SessionLimitData.sessionIds data →
  next ∉ SessionLimitData.sessionIds data →
  Z.of_nat (size (SessionLimitData.sessionIds data)) ≤ sessions_limit config →
  SessionCheck.allowed
    (checkSessionLimit config ip next (removeSession ip released s)).1 = true.
Proof.
  intros Hip Hreleased Hnext Hsize. unfold removeSession. rewrite Hip.
  rewrite bool_decide_eq_true_2 by done. cbn [SessionLimitData.activeCount].
  assert (Z.of_nat (size (SessionLimitData.sessionIds data ∖ {[released]}))
          = Z.of_nat (size (SessionLimitData.sessionIds data)) - 1) as Hless.
  { rewrite size_difference by (by apply singleton_subseteq_l).
    rewrite size_singleton.
    assert (size (SessionLimitData.sessionIds data) ≠ 0)%nat; [|lia].
    intros Hnone%size_empty_inv.
    apply (not_elem_of_empty (C:=gset string) released).
    by apply Hnone. }
  destruct (Z.of_nat (size (SessionLimitData.sessionIds data ∖ {[released]}))
            =? 0) eqn:Hleft; unfold checkSessionLimit;
    cbn [sessions set_sessions].
  - by rewrite lookup_delete_eq.
  - rewrite lookup_insert_eq.
    cbn [SessionLimitData.activeCount SessionLimitData.sessionIds].
    rewrite bool_decide_eq_false_2
      by (intros [? _]%elem_of_difference; done).
    rewrite Z.geb_leb.
    assert ((sessions_limit config
             <=? Z.of_nat (size (SessionLimitData.sessionIds data ∖ {[released]})))
            = false) as -> by (apply Z.leb_gt; lia).
    done.
Qed.

Lemma release_frees_a_slot_witness :
  let ip := "203.0.113.7" in
  let s := run exampleConfig
             [CheckSessionLimit ip "s1"; CheckSessionLimit ip "s2";
              CheckSessionLimit ip "s3"] emptyStore in
  let data := SessionLimitData.mk 3 ({["s1"]} ∪ {["s2"]} ∪ {["s3"]}) in
  sessions s !! ip = Some data
  ∧ "s2" ∈ SessionLimitData.sessionIds data
  ∧ ("s4" ∉ SessionLimitData.sessionIds data)
  ∧ Z.of_nat (size (SessionLimitData.sessionIds data))
    ≤ sessions_limit exampleConfig
  ∧ SessionCheck.allowed
      (checkSessionLimit exampleConfig ip "s4" (removeSession ip "s2" s)).1
    = true.
Proof.
  intros ip s data.
  assert (H1 : sessions s !! ip = Some data) by (vm_compute; reflexivity).
  assert (H2 : "s2" ∈ SessionLimitData.sessionIds data).
  { apply (bool_decide_unpack _). vm_compute. exact I. }
  assert (H3 : "s4" ∉ SessionLimitData.sessionIds data).
  { apply (bool_decide_unpack _). vm_compute. exact I. }
  assert (H4 : Z.of_nat (size (SessionLimitData.sessionIds data))
               ≤ sessions_limit exampleConfig).
  { apply (bool_decide_unpack _). vm_compute. exact I. }
  split; [exact H1|]. split; [exact H2|]. split; [exact H3|].
  split; [exact H4|].
  exact (release_frees_a_slot exampleConfig ip "s2" "s4" s data H1 H2 H3 H4).
Defined.

(** Admission and release are inverse.  On any store that operations have
    built from a new one, admitting a session id the key did not hold and
    releasing it again gives back the store as it was: the entry is restored,
    or deleted again when the id was the key's only one. *)
Theorem admit_then_release_restores (config : RateLimitConfig) (ops : list Op)
    (ip sessionId : string) :
  let s := run config ops emptyStore in
  sessionId ∉ sessionIdsOf s ip →
  SessionCheck.allowed (checkSessionLimit config ip sessionId s).1 = true →
  removeSession ip sessionId (checkSessionLimit config ip sessionId s).2 = s.
Proof.
  intros s Hnew.
  pose proof (run_counted config ops emptyStore emptyStore_counted) as Hcounted.
  fold s in Hcounted. clearbody s.
  unfold sessionIdsOf in Hnew. unfold checkSessionLimit.
  destruct (sessions s !! ip) as [data|] eqn:Hip;
    cbn [fst snd SessionCheck.allowed].
  - rewrite bool_decide_eq_false_2 by done.
    destruct (SessionLimitData.activeCount data >=? sessions_limit config);
      cbn [fst snd SessionCheck.allowed]; [done|].
    intros _. unfold removeSession. cbn [sessions set_sessions].
    rewrite lookup_insert_eq.
    cbn [SessionLimitData.activeCount SessionLimitData.sessionIds].
    rewrite bool_decide_eq_true_2
      by (apply elem_of_union_r; by apply elem_of_singleton).
    assert ((SessionLimitData.sessionIds data ∪ {[sessionId]}) ∖ {[sessionId]}
            = SessionLimitData.sessionIds data) as ->.
    { rewrite difference_union_distr_l_L, difference_diag_L.
      rewrite (right_id_L ∅ (∪)). apply difference_disjoint_L.
      by apply disjoint_singleton_r. }
    destruct (Hcounted _ _ Hip) as [Hcount Hfilled].
    assert ((Z.of_nat (size (SessionLimitData.sessionIds data)) =? 0) = false)
      as -> by (apply Z.eqb_neq; lia).
    cbn [sessions set_sessions]. rewrite insert_insert_eq.
    apply set_sessions_same. rewrite <- Hcount.
    apply insert_id. rewrite Hip. by destruct data.
  - intros _. unfold removeSession. cbn [sessions set_sessions].
    rewrite lookup_insert_eq.
    cbn [SessionLimitData.activeCount SessionLimitData.sessionIds].
    rewrite bool_decide_eq_true_2 by (by apply elem_of_singleton).
    rewrite difference_diag_L, size_empty.
    cbn [sessions set_sessions Z.of_nat Z.eqb].
    apply set_sessions_same. by apply delete_insert_id.
Qed.

Lemma admit_then_release_restores_witness :
  let ip := "203.0.113.7" in
  let ops := [CheckLimits (frozen 0) ip "s1" "Hello" corsHeaders;
              CheckSessionLimit ip "s2"; RemoveSession ip "s1";
              RequestCleanup 90000000000] in
  let s := run exampleConfig ops emptyStore in
  ("s7" ∉ sessionIdsOf s ip)
  ∧ SessionCheck.allowed (checkSessionLimit exampleConfig ip "s7" s).1 = true
  ∧ removeSession ip "s7" (checkSessionLimit exampleConfig ip "s7" s).2 = s.
Proof.
  intros ip ops s.
  assert (H1 : "s7" ∉ sessionIdsOf s ip).
  { apply (bool_decide_unpack _). vm_compute. exact I. }
  assert (H2 : SessionCheck.allowed
                 (checkSessionLimit exampleConfig ip "s7" s).1 = true)
    by (vm_compute; reflexivity).
  split; [exact H1|]. split; [exact H2|].
  exact (admit_then_release_restores exampleConfig ops ip "s7" H1 H2).
Defined.

(** ** Sessions are only ever released by [removeSession] *)

Lemma checkSessionLimit_grows config ip data ip' sid' s :
  sessions s !! ip = Some data →
  ∃ data', sessions (checkSessionLimit config ip' sid' s).2 !! ip = Some data'
    ∧ SessionLimitData.sessionIds data ⊆ SessionLimitData.sessionIds data'
    ∧ SessionLimitData.activeCount data ≤ SessionLimitData.activeCount data'.
Proof.
  intros Hip. unfold checkSessionLimit.
  destruct (sessions s !! ip') as [data0|] eqn:Hip';
    [destruct (bool_decide _);
     [|destruct (SessionLimitData.activeCount data0 >=? sessions_limit config)]|];
    cbn [snd sessions set_sessions];
    try (by exists data).
  - destruct (decide (ip' = ip)) as [->|Hne].
    + rewrite lookup_insert_eq. eexists. split; [done|].
      assert (data0 = data) as -> by congruence.
      cbn [SessionLimitData.activeCount SessionLimitData.sessionIds].
      split; [apply union_subseteq_l|lia].
    + rewrite lookup_insert_ne by done. by exists data.
  - assert (ip' ≠ ip) by congruence.
    rewrite lookup_insert_ne by done. by exists data.
Qed.

(** Nothing but a release takes a session id away.  Through any sequence of
    operations without [removeSession] (admission checks for any key, header
    computations, ticks of both cleanup timers, at any times), every id a
    key holds stays in its set, and the recorded count does not go down. *)
Theorem sessions_only_grow (config : RateLimitConfig) (ops : list Op)
    (ip : string) (data : SessionLimitData.t) (s : RateLimitStore) :
  Forall (λ op, isRelease op = false) ops →
  sessions s !! ip = Some data →
  ∃ data', sessions (run config ops s) !! ip = Some data'
    ∧ SessionLimitData.sessionIds data ⊆ SessionLimitData.sessionIds data'
    ∧ SessionLimitData.activeCount data ≤ SessionLimitData.activeCount data'.
Proof.
  intros Hops. revert s data.
  induction Hops as [|op ops Hop _ IH]; intros s data Hip.
  - by exists data.
  - assert (∃ data1, sessions (step config s op) !! ip = Some data1
              ∧ SessionLimitData.sessionIds data
                ⊆ SessionLimitData.sessionIds data1
              ∧ SessionLimitData.activeCount data
                ≤ SessionLimitData.activeCount data1)
      as (data1 & Hip1 & Hids1 & Hcount1).
    { destruct op; simpl in *; try done.
      - destruct (checkLimits_sessions config clk ip0 sessionId messageText
                    cors s) as [(_ & _ & ->)|[_ ->]];
          [by apply checkSessionLimit_grows|by exists data].
      - rewrite addRateLimitHeaders_sessions. by exists data.
      - rewrite checkRequestLimit_sessions. by exists data.
      - rewrite checkTokenLimit_sessions. by exists data.
      - by apply checkSessionLimit_grows.
      - by exists data.
      - by exists data. }
    destruct (IH _ _ Hip1) as (data' & Hip' & Hids' & Hcount').
    exists data'. split; [done|]. split; [by etrans|lia].
Qed.

Lemma sessions_only_grow_witness :
  let ip := "203.0.113.7" in
  let s := (checkSessionLimit exampleConfig ip "s1" emptyStore).2 in
  let data := SessionLimitData.mk 1 {["s1"]} in
  let ops := [CheckLimits (frozen 0) ip "s2" "Hello" corsHeaders;
              AddRateLimitHeaders (frozen 0) corsHeaders ip (Some "Hello");
              RequestCleanup 90000000000; TokenCleanup 90000000000;
              CheckLimits (frozen 90000000001) "198.51.100.2" "s1" "Hello"
                corsHeaders] in
  Forall (λ op, isRelease op = false) ops
  ∧ sessions s !! ip = Some data
  ∧ ∃ data', sessions (run exampleConfig ops s) !! ip = Some data'
      ∧ SessionLimitData.sessionIds data ⊆ SessionLimitData.sessionIds data'
      ∧ SessionLimitData.activeCount data ≤ SessionLimitData.activeCount data'.
Proof.
  intros ip s data ops.
  assert (H1 : Forall (λ op, isRelease op = false) ops)
    by (repeat constructor).
  assert (H2 : sessions s !! ip = Some data) by (vm_compute; reflexivity).
  split; [exact H1|]. split; [exact H2|].
  exact (sessions_only_grow exampleConfig ops ip data s H1 H2).
Defined.

(** ** Store statistics *)

Lemma total_activeCount_bounds (lo hi : Z)
    (m : gmap string SessionLimitData.t) :
  (∀ ip data, m !! ip = Some data →
     lo ≤ SessionLimitData.activeCount data ≤ hi) →
  lo * Z.of_nat (size m)
  ≤ map_fold (λ _ data sum, sum + SessionLimitData.activeCount data) 0 m
  ≤ hi * Z.of_nat (size m).
Proof.
  apply (map_fold_weak_ind (λ total (m : gmap string SessionLimitData.t),
    (∀ ip data, m !! ip = Some data →
       lo ≤ SessionLimitData.activeCount data ≤ hi) →
    lo * Z.of_nat (size m) ≤ total ≤ hi * Z.of_nat (size m))).
  - intros _. rewrite map_size_empty. lia.
  - intros ip data m' total Hfresh IH Hall.
    rewrite map_size_insert_None by done.
    assert (lo ≤ SessionLimitData.activeCount data ≤ hi)
      by (apply (Hall ip); by rewrite lookup_insert_eq).
    assert (lo * Z.of_nat (size m') ≤ total ≤ hi * Z.of_nat (size m')).
    { apply IH. intros ip' data' Hip'. apply (Hall ip').
      rewrite lookup_insert_ne; [done|]. congruence. }
    lia.
Qed.

(** What [getStoreStats] reports about sessions.  On any store that
    operations have built from a new one, under a session limit of at least
    one, the total of active sessions lies between the number of keys with a
    session entry and that number times the session limit: every entry
    holds at least one session and at most the limit. *)
Theorem getStoreStats_session_totals (config : RateLimitConfig)
    (ops : list Op) :
  1 ≤ sessions_limit config →
  let stats := getStoreStats (run config ops emptyStore) in
  sessionEntries stats ≤ totalSessions stats
  ∧ totalSessions stats ≤ sessions_limit config * sessionEntries stats.
Proof.
  intros Hlimit stats.
  pose proof (run_counted config ops emptyStore emptyStore_counted) as Hcounted.
  assert (sessions_bounded config (run config ops emptyStore)) as Hbounded.
  { clear stats Hcounted.
    assert (sessions_bounded config emptyStore) as Hempty.
    { intros ip data. simpl. by rewrite lookup_empty. }
    revert Hempty. generalize emptyStore as s.
    induction ops as [|op ops IH]; intros s Hs; [done|].
    simpl. apply IH. by apply step_sessions_bounded. }
  pose proof (total_activeCount_bounds 1 (sessions_limit config)
                (sessions (run config ops emptyStore))) as Htotal.
  unfold stats, getStoreStats. cbn [sessionEntries totalSessions].
  destruct Htotal as [Hlow Hhigh]; [|lia].
  intros ip data Hip. destruct (Hcounted _ _ Hip) as [_ ?].
  destruct (Hbounded _ _ Hip) as [_ ?]. lia.
Qed.

Lemma getStoreStats_session_totals_witness :
  let ops := [CheckSessionLimit "203.0.113.7" "s1";
              CheckSessionLimit "203.0.113.7" "s2";
              CheckSessionLimit "198.51.100.2" "s1";
              RemoveSession "203.0.113.7" "s1";
              CheckRequestLimit 0 "203.0.113.7"] in
  1 ≤ sessions_limit exampleConfig
  ∧ getStoreStats (run exampleConfig ops emptyStore) = mkStats 1 0 2 2
  ∧ sessionEntries (getStoreStats (run exampleConfig ops emptyStore))
    ≤ totalSessions (getStoreStats (run exampleConfig ops emptyStore))
  ∧ totalSessions (getStoreStats (run exampleConfig ops emptyStore))
    ≤ sessions_limit exampleConfig
      * sessionEntries (getStoreStats (run exampleConfig ops emptyStore)).
Proof.
  intros ops.
  assert (H1 : 1 ≤ sessions_limit exampleConfig) by (simpl; lia).
  split; [exact H1|]. split; [vm_compute; reflexivity|].
  exact (getStoreStats_session_totals exampleConfig ops H1).
Defined.

(** ** The cleanup timers *)

Section Sweep.
Context `{HasResetTime T}.

Lemma cleanExpiredEntries_lookup now (m : gmap string T) key :
  cleanExpiredEntries now m !! key
  = match m !! key with
    | Some value => if bool_decide (resetTimeOf value ≤ now) then None
                    else Some value
    | None => None
    end.
Proof.
  unfold cleanExpiredEntries. destruct (m !! key) as [value|] eqn:Hkey.
  - case_bool_decide.
    + apply map_lookup_filter_None_2. right. intros value' Hvalue'.
      rewrite Hkey in Hvalue'. injection Hvalue' as <-. simpl. tauto.
    + by apply map_lookup_filter_Some_2.
  - apply map_lookup_filter_None_2. by left.
Qed.

Lemma cleanExpiredEntries_insert now (m : gmap string T) key value :
  now < resetTimeOf value →
  cleanExpiredEntries now (<[key := value]> m)
  = <[key := value]> (cleanExpiredEntries now m).
Proof.
  intros Hactive. unfold cleanExpiredEntries.
  apply map_filter_insert_True. simpl. lia.
Qed.

End Sweep.

(** Sweeps compose.  A sweep at [t] followed by a sweep at [t'] leaves what
    one sweep at the later of the two times leaves, in either order. *)
Theorem cleanExpiredEntries_compose `{HasResetTime T} (t t' : Z)
    (map : gmap string T) :
  cleanExpiredEntries t' (cleanExpiredEntries t map)
  = cleanExpiredEntries (Z.max t t') map.
Proof.
  apply map_eq. intros key. rewrite !cleanExpiredEntries_lookup.
  destruct (map !! key) as [value|]; [|done].
  repeat case_bool_decide; try done; lia.
Qed.

Section SweepThenCheck.
Variable config : RateLimitConfig.

Lemma checkRequestLimit_after_sweep now now' ip s :
  now ≤ now' →
  (checkRequestLimit config now' ip (requestCleanup now s)).1
  = (checkRequestLimit config now' ip s).1.
Proof.
  intros Hlater. unfold checkRequestLimit, requestCleanup.
  cbn [requests set_requests]. rewrite cleanExpiredEntries_lookup.
  destruct (requests s !! ip) as [data|]; [|done].
  change (resetTimeOf data) with (RequestLimitData.resetTime data).
  case_bool_decide; [|by repeat case_match].
  rewrite Z.geb_leb.
  by assert ((RequestLimitData.resetTime data <=? now') = true) as ->
    by (apply Z.leb_le; lia).
Qed.

Lemma checkTokenLimit_after_sweep now now' ip est s :
  now ≤ now' →
  (checkTokenLimit config now' ip est (tokenCleanup now s)).1
  = (checkTokenLimit config now' ip est s).1.
Proof.
  intros Hlater. unfold checkTokenLimit, tokenCleanup.
  cbn [tokens set_tokens]. rewrite cleanExpiredEntries_lookup.
  destruct (tokens s !! ip) as [data|]; [|done].
  change (resetTimeOf data) with (TokenLimitData.resetTime data).
  case_bool_decide; [|by repeat case_match].
  rewrite Z.geb_leb.
  by assert ((TokenLimitData.resetTime data <=? now') = true) as ->
    by (apply Z.leb_le; lia).
Qed.

End SweepThenCheck.

(** A sweep is invisible to later checks.  A request check or a token check
    made no earlier than a sweep gives the same answer as without the sweep,
    and, the windows being positive, leaves the store the sweep would have
    left had it run after the check. *)
Theorem sweep_commutes_with_later_checks (config : RateLimitConfig)
    (now now' : Z) (ip : string) (estimatedTokens : Z) (s : RateLimitStore) :
  now ≤ now' →
  0 < requests_windowMs config →
  0 < tokens_windowMs config →
  checkRequestLimit config now' ip (requestCleanup now s)
  = ((checkRequestLimit config now' ip s).1,
     requestCleanup now (checkRequestLimit config now' ip s).2)
  ∧ checkTokenLimit config now' ip estimatedTokens (tokenCleanup now s)
    = ((checkTokenLimit config now' ip estimatedTokens s).1,
       tokenCleanup now (checkTokenLimit config now' ip estimatedTokens s).2).
Proof.
  intros Hlater Hrequests Htokens. split.
  - apply injective_projections; cbn [fst snd];
      [by apply checkRequestLimit_after_sweep|].
    unfold checkRequestLimit, requestCleanup.
    cbn [requests tokens sessions set_requests].
    rewrite cleanExpiredEntries_lookup. cbv zeta.
    destruct (requests s !! ip) as [data|].
    + change (resetTimeOf data) with (RequestLimitData.resetTime data).
      case_bool_decide;
        (destruct (now' >=? RequestLimitData.resetTime data) eqn:Hended;
         [|destruct (RequestLimitData.count data >=? requests_limit config)]);
        rewrite Z.geb_leb in Hended;
        first [apply Z.leb_le in Hended|apply Z.leb_gt in Hended];
        try lia; unfold set_requests; cbn [fst snd requests tokens sessions];
        rewrite ?cleanExpiredEntries_insert; try done;
        unfold resetTimeOf; simpl; lia.
    + unfold set_requests; cbn [fst snd requests tokens sessions].
      rewrite cleanExpiredEntries_insert; [done|].
      unfold resetTimeOf; simpl; lia.
  - apply injective_projections; cbn [fst snd];
      [by apply checkTokenLimit_after_sweep|].
    unfold checkTokenLimit, tokenCleanup.
    cbn [requests tokens sessions set_tokens].
    rewrite cleanExpiredEntries_lookup. cbv zeta.
    destruct (tokens s !! ip) as [data|].
    + change (resetTimeOf data) with (TokenLimitData.resetTime data).
      case_bool_decide;
        (destruct (now' >=? TokenLimitData.resetTime data) eqn:Hended;
         [|destruct (TokenLimitData.dailyUsage data + estimatedTokens
                     >? tokens_limit config)]);
        rewrite Z.geb_leb in Hended;
        first [apply Z.leb_le in Hended|apply Z.leb_gt in Hended];
        try lia; unfold set_tokens; cbn [fst snd requests tokens sessions];
        rewrite ?cleanExpiredEntries_insert; try done;
        unfold resetTimeOf; simpl; lia.
    + unfold set_tokens; cbn [fst snd requests tokens sessions].
      rewrite cleanExpiredEntries_insert; [done|].
      unfold resetTimeOf; simpl; lia.
Qed.

Lemma sweep_commutes_with_later_checks_witness :
  let ip := "203.0.113.7" in
  let s := run exampleConfig
             [CheckRequestLimit 0 ip; CheckTokenLimit 0 ip 2000;
              CheckRequestLimit 0 "198.51.100.2"] emptyStore in
  3600000 ≤ 3600005
  ∧ 0 < requests_windowMs exampleConfig
  ∧ 0 < tokens_windowMs exampleConfig
  ∧ checkRequestLimit exampleConfig 3600005 ip (requestCleanup 3600000 s)
    = (LimitCheck.mk true 9 7200005,
       requestCleanup 3600000
         (checkRequestLimit exampleConfig 3600005 ip s).2).
Proof.
  intros ip s.
  assert (H1 : 3600000 ≤ 3600005) by lia.
  assert (H2 : 0 < requests_windowMs exampleConfig) by (simpl; lia).
  assert (H3 : 0 < tokens_windowMs exampleConfig) by (simpl; lia).
  split; [exact H1|]. split; [exact H2|]. split; [exact H3|].
  exact (proj1 (sweep_commutes_with_later_checks exampleConfig 3600000 3600005
                  ip 0 s H1 H2 H3)).
Defined.

(** The response of the facade does not depend on past sweeps.  An admission
    check whose clock readings are no earlier than the last ticks of the two
    cleanup timers answers as it would have without them. *)
Theorem sweeps_do_not_change_responses (config : RateLimitConfig) (clk : Clock)
    (ip sessionId messageText : string) (cors : gmap string string)
    (tRequests tTokens : Z) (s : RateLimitStore) :
  tRequests ≤ atRequestCheck clk →
  tTokens ≤ atTokenCheck clk →
  (checkLimits config clk ip sessionId messageText cors
     (tokenCleanup tTokens (requestCleanup tRequests s))).1
  = (checkLimits config clk ip sessionId messageText cors s).1.
Proof.
  intros Hrequests Htokens. rewrite !checkLimits_unfold.
  unfold checkLimits_steps.
  set (s0 := tokenCleanup tTokens (requestCleanup tRequests s)).
  set (rq0 := checkRequestLimit config (atRequestCheck clk) ip s0).
  set (rq := checkRequestLimit config (atRequestCheck clk) ip s).
  assert (rq0.1 = rq.1) as Hrq.
  { unfold rq0, rq.
    rewrite (checkRequestLimit_local config _ _ (requestCleanup tRequests s) s0)
      by done.
    by apply checkRequestLimit_after_sweep. }
  rewrite Hrq. destruct (LimitCheck.allowed rq.1); cbn [negb]; [|done].
  set (tk0 := checkTokenLimit config (atTokenCheck clk) ip
                (estimateTokens messageText) rq0.2).
  set (tk := checkTokenLimit config (atTokenCheck clk) ip
               (estimateTokens messageText) rq.2).
  assert (tk0.1 = tk.1) as Htk.
  { unfold tk0, tk.
    rewrite (checkTokenLimit_local config _ _ _ (tokenCleanup tTokens rq.2) rq0.2).
    - by apply checkTokenLimit_after_sweep.
    - unfold rq0, rq, tokenCleanup. cbn [tokens set_tokens].
      by rewrite !checkRequestLimit_tokens. }
  rewrite Htk. destruct (LimitCheck.allowed tk.1); cbn [negb]; [|done].
  assert (sessions tk0.2 = sessions tk.2) as Hsessions.
  { unfold tk0, tk, rq0, rq.
    by rewrite !checkTokenLimit_sessions, !checkRequestLimit_sessions. }
  destruct (checkSessionLimit_local config ip sessionId tk.2 tk0.2 Hsessions)
    as [-> _].
  by destruct (SessionCheck.allowed _).
Qed.

Lemma sweeps_do_not_change_responses_witness :
  let ip := "203.0.113.7" in
  let s := run exampleConfig (replicate 10 (CheckRequestLimit 0 ip)) emptyStore in
  let clk := frozen 1000 in
  500 ≤ atRequestCheck clk
  ∧ 900 ≤ atTokenCheck clk
  ∧ decision (checkLimits exampleConfig clk ip "s1" "Hello" corsHeaders s).1
    = Some type_requests
  ∧ (checkLimits exampleConfig clk ip "s1" "Hello" corsHeaders
       (tokenCleanup 900 (requestCleanup 500 s))).1
    = (checkLimits exampleConfig clk ip "s1" "Hello" corsHeaders s).1.
Proof.
  intros ip s clk.
  assert (H1 : 500 ≤ atRequestCheck clk) by (simpl; lia).
  assert (H2 : 900 ≤ atTokenCheck clk) by (simpl; lia).
  split; [exact H1|]. split; [exact H2|]. split; [vm_compute; reflexivity|].
  exact (sweeps_do_not_change_responses exampleConfig clk ip "s1" "Hello"
           corsHeaders 500 900 s H1 H2).
Defined.

(** ** The estimate *)

(** The estimate is the length divided by four, rounded up: four times the
    estimate is at least the length and less than the length plus four.  So
    a message fits a budget of [limit] units exactly when it has at most
    [4 * limit] characters. *)
Theorem estimateTokens_bounds (text : string) :
  let n := Z.of_nat (String.length text) in
  n ≤ 4 * estimateTokens text < n + 4
  ∧ ∀ limit, estimateTokens text ≤ limit ↔ n ≤ 4 * limit.
Proof.
  intros n.
  assert (4 * (estimateTokens text - 1) < n ≤ 4 * estimateTokens text) as Hceil.
  { by apply (Math_ceil_div_spec n 4 (estimateTokens text)). }
  split; [lia|]. intros limit. lia.
Qed.

(** ** Admissions within one window *)

Lemma requestChecks_cons config now times ip s :
  (requestChecks config (now :: times) ip s).1
  = (checkRequestLimit config now ip s).1
    :: (requestChecks config times ip (checkRequestLimit config now ip s).2).1.
Proof.
  cbn [requestChecks].
  destruct (checkRequestLimit config now ip s) as [r s1]. cbn [fst snd].
  by destruct (requestChecks config times ip s1).
Qed.

Lemma admission_pattern_cons_admitted (n room : nat) :
  true :: (replicate (n `min` room) true ++ replicate (n - room) false)
  = replicate (S n `min` S room) true ++ replicate (S n - S room) false.
Proof. done. Qed.

Lemma admission_pattern_cons_rejected (n : nat) :
  false :: (replicate (n `min` 0) true ++ replicate (n - 0) false)
  = replicate (S n `min` 0) true ++ replicate (S n - 0) false.
Proof. by rewrite Nat.min_0_r, Nat.sub_0_r. Qed.

(** Within an active window the request check is first come, first served.
    Of any number of checks made for a key before its window ends, exactly
    the first [limit - count] are admitted, and all the later ones are
    rejected. *)
Theorem requestChecks_admit_what_is_left (config : RateLimitConfig)
    (times : list Z) (ip : string) (s : RateLimitStore)
    (data : RequestLimitData.t) :
  requests s !! ip = Some data →
  Forall (λ now, now < RequestLimitData.resetTime data) times →
  let room := Z.to_nat (requests_limit config - RequestLimitData.count data) in
  LimitCheck.allowed <$> (requestChecks config times ip s).1
  = replicate (length times `min` room) true
    ++ replicate (length times - room) false.
Proof.
  intros Hip Htimes. revert s data Hip Htimes.
  induction times as [|now times IH]; intros s data Hip Htimes room; [done|].
  apply Forall_cons in Htimes as [Hnow Htimes].
  rewrite requestChecks_cons, fmap_cons.
  unfold checkRequestLimit at 1 2. rewrite Hip, Z.geb_leb.
  assert ((RequestLimitData.resetTime data <=? now) = false) as ->
    by (apply Z.leb_gt; lia).
  destruct (RequestLimitData.count data >=? requests_limit config) eqn:Hfull;
    rewrite Z.geb_leb in Hfull; cbn [fst snd LimitCheck.allowed].
  - apply Z.leb_le in Hfull.
    assert (room = 0%nat) as Hroom by (unfold room; lia).
    rewrite (IH s data Hip Htimes). fold room. rewrite Hroom.
    apply admission_pattern_cons_rejected.
  - apply Z.leb_gt in Hfull.
    set (data' := RequestLimitData.mk (RequestLimitData.count data + 1)
                    (RequestLimitData.resetTime data)).
    rewrite (IH _ data'); [| by cbn; rewrite lookup_insert_eq | done].
    cbn [RequestLimitData.count data'].
    assert (∃ room', room = S room'
              ∧ Z.to_nat (requests_limit config
                          - (RequestLimitData.count data + 1)) = room')
      as (room' & -> & ->) by (exists (Nat.pred room); unfold room; lia).
    cbn [length]. apply admission_pattern_cons_admitted.
Qed.

Lemma requestChecks_admit_what_is_left_witness :
  let ip := "203.0.113.7" in
  let s := run exampleConfig (replicate 7 (CheckRequestLimit 0 ip)) emptyStore in
  let data := RequestLimitData.mk 7 3600000 in
  let times := [10; 20; 30; 40; 50] in
  requests s !! ip = Some data
  ∧ Forall (λ now, now < RequestLimitData.resetTime data) times
  ∧ LimitCheck.allowed <$> (requestChecks exampleConfig times ip s).1
    = [true; true; true; false; false].
Proof.
  intros ip s data times.
  assert (H1 : requests s !! ip = Some data) by (vm_compute; reflexivity).
  assert (H2 : Forall (λ now, now < RequestLimitData.resetTime data) times)
    by (repeat constructor).
  split; [exact H1|]. split; [exact H2|].
  exact (requestChecks_admit_what_is_left exampleConfig times ip s data H1 H2).
Defined.

(** ** The lead route's limiter *)

Lemma rateLimitChecks_cons now times ip store :
  rateLimitChecks (now :: times) ip store
  = (checkRateLimit now ip store).1
    :: rateLimitChecks times ip (checkRateLimit now ip store).2.
Proof. cbn [rateLimitChecks]. by destruct (checkRateLimit now ip store). Qed.

(** The lead route's limiter is first come, first served as well, with a
    window that is still open at its end time: of any number of calls made
    for a key no later than the end of its window, exactly the first
    [RATE_LIMIT - count] return [true]. *)
Theorem rateLimitChecks_admit_what_is_left (times : list Z) (ip : string)
    (rateLimitStore : gmap string RequestLimitData.t)
    (entry : RequestLimitData.t) :
  rateLimitStore !! ip = Some entry →
  Forall (λ now, now ≤ RequestLimitData.resetTime entry) times →
  let room := Z.to_nat (RATE_LIMIT - RequestLimitData.count entry) in
  rateLimitChecks times ip rateLimitStore
  = replicate (length times `min` room) true
    ++ replicate (length times - room) false.
Proof.
  intros Hip Htimes. revert rateLimitStore entry Hip Htimes.
  induction times as [|now times IH]; intros store entry Hip Htimes room;
    [done|].
  apply Forall_cons in Htimes as [Hnow Htimes].
  rewrite rateLimitChecks_cons.
  unfold checkRateLimit at 1 2. rewrite Hip, Z.gtb_ltb.
  assert ((RequestLimitData.resetTime entry <? now) = false) as ->
    by (apply Z.ltb_ge; lia).
  destruct (RequestLimitData.count entry >=? RATE_LIMIT) eqn:Hfull;
    rewrite Z.geb_leb in Hfull; cbn [fst snd].
  - apply Z.leb_le in Hfull.
    assert (room = 0%nat) as Hroom by (unfold room; lia).
    rewrite (IH store entry Hip Htimes). fold room. rewrite Hroom.
    apply admission_pattern_cons_rejected.
  - apply Z.leb_gt in Hfull.
    set (entry' := RequestLimitData.mk (RequestLimitData.count entry + 1)
                     (RequestLimitData.resetTime entry)).
    rewrite (IH _ entry'); [| by rewrite lookup_insert_eq | done].
    cbn [RequestLimitData.count entry'].
    assert (∃ room', room = S room'
              ∧ Z.to_nat (RATE_LIMIT - (RequestLimitData.count entry + 1))
                = room')
      as (room' & -> & ->) by (exists (Nat.pred room); unfold room; lia).
    cbn [length]. apply admission_pattern_cons_admitted.
Qed.

Lemma rateLimitChecks_admit_what_is_left_witness :
  let ip := "203.0.113.7" in
  let store : gmap string RequestLimitData.t :=
    {[ ip := RequestLimitData.mk 98 3600000 ]} in
  let times := [10; 20; 3600000; 3600000] in
  store !! ip = Some (RequestLimitData.mk 98 3600000)
  ∧ Forall (λ now, now ≤ 3600000) times
  ∧ rateLimitChecks times ip store = [true; true; false; false].
Proof.
  intros ip store times.
  assert (H1 : store !! ip = Some (RequestLimitData.mk 98 3600000))
    by (vm_compute; reflexivity).
  assert (H2 : Forall (λ now, now ≤ RequestLimitData.resetTime
                                      (RequestLimitData.mk 98 3600000)) times).
  { repeat constructor; simpl; lia. }
  split; [exact H1|]. split; [exact H2|].
  exact (rateLimitChecks_admit_what_is_left times ip store _ H1 H2).
Defined.

(** ** What a rejection tells the client *)

Section RejectionTimes.
Variable config : RateLimitConfig.

Lemma checkRequestLimit_rejected_later now ip s :
  LimitCheck.allowed (checkRequestLimit config now ip s).1 = false →
  now < LimitCheck.resetTime (checkRequestLimit config now ip s).1.
Proof.
  unfold checkRequestLimit.
  destruct (requests s !! ip) as [data|]; [|done].
  destruct (now >=? RequestLimitData.resetTime data) eqn:Hended; [done|].
  rewrite Z.geb_leb in Hended. apply Z.leb_gt in Hended.
  by case_match.
Qed.

Lemma checkTokenLimit_rejected_later now ip est s :
  0 < tokens_windowMs config →
  LimitCheck.allowed (checkTokenLimit config now ip est s).1 = false →
  now < LimitCheck.resetTime (checkTokenLimit config now ip est s).1.
Proof.
  intros Hwindow. unfold checkTokenLimit.
  destruct (tokens s !! ip) as [data|]; [|simpl; lia].
  destruct (now >=? TokenLimitData.resetTime data) eqn:Hended; [simpl; lia|].
  rewrite Z.geb_leb in Hended. apply Z.leb_gt in Hended.
  by case_match.
Qed.

End RejectionTimes.

Lemma Math_ceil_div_positive a b : 0 < b → 0 < a → 1 ≤ Math_ceil_div a b.
Proof.
  intros Hb Ha.
  pose proof (proj1 (Math_ceil_div_spec a b (Math_ceil_div a b) Hb) eq_refl).
  nia.
Qed.

(** A rejection never asks the client to retry at once or in the past.  When
    the clock stands still during the call and the token window is
    positive, every 429 of [checkLimits] reports a reset time after the
    current time and a [Retry-After] of at least one second. *)
Theorem rejection_retry_after_positive (config : RateLimitConfig) (now : Z)
    (ip sessionId messageText : string) (cors : gmap string string)
    (s : RateLimitStore) (response : NextResponse) :
  0 < tokens_windowMs config →
  cors !! "Retry-After" = None →
  (checkLimits config (frozen now) ip sessionId messageText cors s).1
  = Some response →
  now < body_resetTime (body response)
  ∧ ∃ seconds, 1 ≤ seconds
      ∧ headers response !! "Retry-After" = Some (pretty seconds).
Proof.
  intros Hwindow Hcors. rewrite checkLimits_unfold. unfold checkLimits_steps.
  cbn [frozen atRequestCheck atTokenCheck atSessionResult].
  set (rq := checkRequestLimit config now ip s).
  set (tk := checkTokenLimit config now ip (estimateTokens messageText) rq.2).
  set (ss := checkSessionLimit config ip sessionId tk.2).
  assert (∀ result,
    RateLimitResult.allowed result = false →
    now < RateLimitResult.resetTime result →
    now < body_resetTime (body (createRateLimitResponse (frozen now) result cors))
    ∧ ∃ seconds, 1 ≤ seconds
        ∧ headers (createRateLimitResponse (frozen now) result cors)
            !! "Retry-After" = Some (pretty seconds)) as Hresponse.
  { intros result Hrejected Hlater.
    rewrite createRateLimitResponse_resetTime. split; [done|].
    eexists. split; [|by apply createRateLimitResponse_retry_after].
    apply Math_ceil_div_positive; simpl; lia. }
  destruct (LimitCheck.allowed rq.1) eqn:Hrq; cbn [negb fst].
  - destruct (LimitCheck.allowed tk.1) eqn:Htk; cbn [negb fst].
    + destruct (SessionCheck.allowed ss.1); cbn [negb fst]; [done|].
      intros [= <-]. apply Hresponse; simpl; [done|lia].
    + intros [= <-]. apply Hresponse; simpl; [done|].
      by apply checkTokenLimit_rejected_later.
  - intros [= <-]. apply Hresponse; simpl; [done|].
    by apply checkRequestLimit_rejected_later.
Qed.

Lemma rejection_retry_after_positive_witness :
  let ip := "203.0.113.7" in
  let s := run exampleConfig (replicate 10 (CheckRequestLimit 0 ip)) emptyStore in
  let response :=
    createRateLimitResponse (frozen 3599999)
      (RateLimitResult.mk false 3600000 0 10 type_requests) corsHeaders in
  0 < tokens_windowMs exampleConfig
  ∧ corsHeaders !! "Retry-After" = None
  ∧ (checkLimits exampleConfig (frozen 3599999) ip "s1" "Hello" corsHeaders s).1
    = Some response
  ∧ headers response !! "Retry-After" = Some "1"
  ∧ 3599999 < body_resetTime (body response).
Proof.
  intros ip s response.
  assert (H1 : 0 < tokens_windowMs exampleConfig) by (simpl; lia).
  assert (H2 : corsHeaders !! "Retry-After" = None) by (vm_compute; reflexivity).
  assert (H3 : (checkLimits exampleConfig (frozen 3599999) ip "s1" "Hello"
                  corsHeaders s).1 = Some response)
    by (vm_compute; reflexivity).
  split; [exact H1|]. split; [exact H2|]. split; [exact H3|].
  split; [vm_compute; reflexivity|].
  exact (proj1 (rejection_retry_after_positive exampleConfig 3599999 ip "s1"
                  "Hello" corsHeaders s response H1 H2 H3)).
Defined.

(** The message of a request or token rejection counts in hours.  The number
    of hours is rounded up from minutes that are rounded up from seconds, so
    it is at least one whenever the reset time is still ahead: the branch
    that words the wait in minutes is not taken, and a wait of up to an
    hour, be it one second, reads "1 hour". *)
Theorem retry_message_counts_hours (clk : Clock) (result : RateLimitResult.t)
    (cors : gmap string string) :
  atMessage clk < RateLimitResult.resetTime result →
  let hours :=
    Math_ceil_div
      (Math_ceil_div
         (Math_ceil_div (RateLimitResult.resetTime result - atMessage clk) 1000)
         60) 60 in
  let limit := pretty (RateLimitResult.limit result) in
  let message := body_message (body (createRateLimitResponse clk result cors)) in
  1 ≤ hours
  ∧ (RateLimitResult.resetTime result - atMessage clk ≤ 3600000 → hours = 1)
  ∧ (RateLimitResult.type result = type_requests →
     message
     = ("Too many requests. You've exceeded the limit of " +:+ limit
          +:+ " messages per hour.")
       +:+ " " +:+ ("Try again in " +:+ pretty hours +:+ " hour"
                      +:+ plural hours +:+ "."))
  ∧ (RateLimitResult.type result = type_tokens →
     message
     = ("Daily token limit exceeded. You've reached the limit of " +:+ limit
          +:+ " tokens per day.")
       +:+ " " +:+ ("Limit resets in " +:+ pretty hours +:+ " hour"
                      +:+ plural hours +:+ ".")).
Proof.
  intros Hahead hours limit message.
  set (seconds :=
    Math_ceil_div (RateLimitResult.resetTime result - atMessage clk) 1000)
    in *.
  set (minutes := Math_ceil_div seconds 60) in *.
  assert (1 ≤ seconds) by (apply Math_ceil_div_positive; lia).
  assert (1 ≤ minutes) by (apply Math_ceil_div_positive; lia).
  assert (1 ≤ hours) as Hhours by (apply Math_ceil_div_positive; lia).
  split; [done|]. split; [|split].
  - intros Hwait. apply Math_ceil_div_spec; [lia|].
    assert (seconds ≤ 3600).
    { pose proof (proj1 (Math_ceil_div_spec _ 1000 seconds ltac:(lia)) eq_refl).
      lia. }
    assert (minutes ≤ 60).
    { pose proof (proj1 (Math_ceil_div_spec seconds 60 minutes ltac:(lia))
                    eq_refl). lia. }
    lia.
  - intros Htype. unfold message, createRateLimitResponse. rewrite Htype.
    fold seconds minutes hours. cbn [body body_message].
    rewrite Z.geb_leb. by apply Z.leb_le in Hhours as ->.
  - intros Htype. unfold message, createRateLimitResponse. rewrite Htype.
    fold seconds minutes hours. cbn [body body_message].
    rewrite Z.geb_leb. by apply Z.leb_le in Hhours as ->.
Qed.

Lemma retry_message_counts_hours_witness :
  let result := RateLimitResult.mk false 3600000 0 10 type_requests in
  let clk := frozen 3599000 in
  atMessage clk < RateLimitResult.resetTime result
  ∧ body_message (body (createRateLimitResponse clk result corsHeaders))
    = "Too many requests. You've exceeded the limit of 10 messages per hour. Try again in 1 hour.".
Proof.
  intros result clk.
  assert (H1 : atMessage clk < RateLimitResult.resetTime result)
    by (simpl; lia).
  split; [exact H1|].
  exact (proj1 (proj2 (proj2 (retry_message_counts_hours clk result
                                corsHeaders H1))) eq_refl).
Defined.

(** ** Keys do not interfere *)

Section PerKey.
Variable config : RateLimitConfig.

(** A check for one key reads and writes that key's entry only. *)
Lemma checkRequestLimit_at now ip s s' :
  requests s !! ip = requests s' !! ip →
  (checkRequestLimit config now ip s).1 = (checkRequestLimit config now ip s').1
  ∧ requests (checkRequestLimit config now ip s).2 !! ip
    = requests (checkRequestLimit config now ip s').2 !! ip.
Proof.
  intros Hip. unfold checkRequestLimit. rewrite <- Hip.
  repeat case_match; cbn [fst snd requests set_requests];
    rewrite ?lookup_insert_eq; split; congruence.
Qed.

Lemma checkTokenLimit_at now ip est s s' :
  tokens s !! ip = tokens s' !! ip →
  (checkTokenLimit config now ip est s).1
  = (checkTokenLimit config now ip est s').1
  ∧ tokens (checkTokenLimit config now ip est s).2 !! ip
    = tokens (checkTokenLimit config now ip est s').2 !! ip.
Proof.
  intros Hip. unfold checkTokenLimit. rewrite <- Hip.
  repeat case_match; cbn [fst snd tokens set_tokens];
    rewrite ?lookup_insert_eq; split; congruence.
Qed.

Lemma checkSessionLimit_at ip sid s s' :
  sessions s !! ip = sessions s' !! ip →
  (checkSessionLimit config ip sid s).1 = (checkSessionLimit config ip sid s').1.
Proof.
  intros Hip. unfold checkSessionLimit. rewrite <- Hip.
  by repeat case_match.
Qed.

Lemma checkRequestLimit_other now ip ip' s :
  ip' ≠ ip →
  requests (checkRequestLimit config now ip' s).2 !! ip = requests s !! ip.
Proof.
  intros Hne. unfold checkRequestLimit.
  repeat case_match; cbn [snd requests set_requests];
    rewrite ?lookup_insert_ne; done.
Qed.

Lemma checkTokenLimit_other now ip ip' est s :
  ip' ≠ ip →
  tokens (checkTokenLimit config now ip' est s).2 !! ip = tokens s !! ip.
Proof.
  intros Hne. unfold checkTokenLimit.
  repeat case_match; cbn [snd tokens set_tokens];
    rewrite ?lookup_insert_ne; done.
Qed.

Lemma checkSessionLimit_other ip ip' sid s :
  ip' ≠ ip →
  sessions (checkSessionLimit config ip' sid s).2 !! ip = sessions s !! ip.
Proof.
  intros Hne. unfold checkSessionLimit.
  repeat case_match; cbn [snd sessions set_sessions];
    rewrite ?lookup_insert_ne; done.
Qed.

Lemma removeSession_other ip ip' sid s :
  ip' ≠ ip → sessions (removeSession ip' sid s) !! ip = sessions s !! ip.
Proof.
  intros Hne. unfold removeSession.
  repeat case_match; cbn [sessions set_sessions];
    rewrite ?lookup_insert_ne, ?lookup_delete_ne; done.
Qed.

Lemma checkLimits_tokens_other clk ip ip' sid text cors s :
  ip' ≠ ip →
  tokens (checkLimits config clk ip' sid text cors s).2 !! ip = tokens s !! ip.
Proof.
  intros Hne. rewrite checkLimits_unfold. unfold checkLimits_steps.
  set (rq := checkRequestLimit config (atRequestCheck clk) ip' s).
  set (tk := checkTokenLimit config (atTokenCheck clk) ip'
               (estimateTokens text) rq.2).
  assert (tokens rq.2 !! ip = tokens s !! ip) as Hrq
    by (unfold rq; by rewrite checkRequestLimit_tokens).
  assert (tokens tk.2 !! ip = tokens s !! ip) as Htk
    by (unfold tk; by rewrite checkTokenLimit_other).
  destruct (LimitCheck.allowed rq.1); cbn [negb snd]; [|done].
  destruct (LimitCheck.allowed tk.1); cbn [negb snd]; [|done].
  assert (tokens (checkSessionLimit config ip' sid tk.2).2 = tokens tk.2) as Hss
    by apply checkSessionLimit_tokens.
  destruct (SessionCheck.allowed _); cbn [negb snd]; by rewrite Hss.
Qed.

Lemma step_other ip s op :
  ¬ concerns ip op → same_at ip (step config s op) s.
Proof.
  intros Hop. unfold same_at. destruct op; simpl in Hop; cbn [step].
  - split; [|split].
    + rewrite checkLimits_requests. by apply checkRequestLimit_other.
    + by apply checkLimits_tokens_other.
    + destruct (checkLimits_sessions config clk ip0 sessionId messageText
                  cors s) as [(_ & _ & ->)|[_ ->]]; [|done].
      by apply checkSessionLimit_other.
  - split; [|split].
    + rewrite addRateLimitHeaders_requests. by apply checkRequestLimit_other.
    + unfold addRateLimitHeaders.
      pose proof (checkRequestLimit_tokens config (atRequestCheck clk) ip0 s)
        as Hrq.
      destruct (checkRequestLimit _ _ _ _) as [rq s1]. cbn [snd] in Hrq.
      destruct (truthy messageText); cbn [snd]; [|by rewrite Hrq].
      pose proof (checkTokenLimit_other (atTokenCheck clk) ip ip0 0 s1 Hop)
        as Htk.
      destruct (checkTokenLimit _ _ _ _ _) as [tk s2]. cbn [snd] in *.
      by rewrite Htk, Hrq.
    + by rewrite addRateLimitHeaders_sessions.
  - unfold RateLimiter_removeSession.
    rewrite removeSession_requests, removeSession_tokens.
    split; [done|]. split; [done|]. by apply removeSession_other.
  - rewrite checkRequestLimit_tokens, checkRequestLimit_sessions.
    split; [|done]. by apply checkRequestLimit_other.
  - rewrite checkTokenLimit_requests, checkTokenLimit_sessions.
    split; [done|]. split; [|done]. by apply checkTokenLimit_other.
  - rewrite checkSessionLimit_requests, checkSessionLimit_tokens.
    split; [done|]. split; [done|]. by apply checkSessionLimit_other.
  - done.
  - done.
Qed.

Lemma checkLimits_at clk ip sid text cors s s' :
  same_at ip s s' →
  (checkLimits config clk ip sid text cors s).1
  = (checkLimits config clk ip sid text cors s').1.
Proof.
  intros (Hrequests & Htokens & Hsessions).
  rewrite !checkLimits_unfold. unfold checkLimits_steps.
  destruct (checkRequestLimit_at (atRequestCheck clk) ip s s' Hrequests)
    as [Hrq _].
  rewrite Hrq.
  destruct (LimitCheck.allowed (checkRequestLimit config _ ip s').1);
    cbn [negb fst]; [|done].
  destruct (checkTokenLimit_at (atTokenCheck clk) ip (estimateTokens text)
              (checkRequestLimit config (atRequestCheck clk) ip s).2
              (checkRequestLimit config (atRequestCheck clk) ip s').2)
    as [Htk _]; [by rewrite !checkRequestLimit_tokens|].
  rewrite Htk.
  destruct (LimitCheck.allowed (checkTokenLimit config _ ip _ _).1);
    cbn [negb fst]; [|done].
  rewrite (checkSessionLimit_at ip sid _
             (checkTokenLimit config (atTokenCheck clk) ip (estimateTokens text)
                (checkRequestLimit config (atRequestCheck clk) ip s').2).2).
  - by destruct (SessionCheck.allowed _).
  - by rewrite !checkTokenLimit_sessions, !checkRequestLimit_sessions.
Qed.

End PerKey.

(** One key's traffic is no other key's business.  A sequence of operations
    that are all made for other keys (admission checks, header
    computations, store checks and releases, at any times) leaves the three
    entries of a key as they were, and the response to the key's next
    admission check is the one it would have got without them. *)
Theorem other_keys_do_not_interfere (config : RateLimitConfig) (ops : list Op)
    (ip : string) (s : RateLimitStore) :
  Forall (λ op, ¬ concerns ip op) ops →
  same_at ip (run config ops s) s
  ∧ ∀ clk sessionId messageText cors,
      (checkLimits config clk ip sessionId messageText cors
         (run config ops s)).1
      = (checkLimits config clk ip sessionId messageText cors s).1.
Proof.
  intros Hops.
  assert (same_at ip (run config ops s) s) as Hsame.
  { revert s. induction Hops as [|op ops Hop _ IH]; intros s; [done|].
    simpl. destruct (IH (step config s op)) as (? & ? & ?).
    destruct (step_other config ip s op Hop) as (? & ? & ?).
    repeat split; congruence. }
  split; [done|]. intros. by apply checkLimits_at.
Qed.

Lemma other_keys_do_not_interfere_witness :
  let ip := "203.0.113.7" in
  let other := "198.51.100.2" in
  let s := run exampleConfig (replicate 9 (CheckRequestLimit 0 ip)) emptyStore in
  let ops := [CheckLimits (frozen 0) other "s1" "Hello" corsHeaders;
              AddRateLimitHeaders (frozen 0) corsHeaders other (Some "Hello");
              CheckLimits (frozen 1) other "s2" (messageOfLength 30000)
                corsHeaders;
              RemoveSession other "s1"] in
  Forall (λ op, ¬ concerns ip op) ops
  ∧ requests (run exampleConfig ops s) !! ip
    = Some (RequestLimitData.mk 9 3600000)
  ∧ (checkLimits exampleConfig (frozen 2) ip "s1" "Hello" corsHeaders
       (run exampleConfig ops s)).1 = None.
Proof.
  intros ip other s ops.
  assert (H1 : Forall (λ op, ¬ concerns ip op) ops)
    by (repeat constructor; simpl; discriminate).
  destruct (other_keys_do_not_interfere exampleConfig ops ip s H1)
    as [(Hrequests & _ & _) Hresponse].
  split; [exact H1|]. split.
  - rewrite Hrequests. vm_compute. reflexivity.
  - rewrite Hresponse. vm_compute. reflexivity.
Defined.

(** ** What a rejected attempt has used up *)

(** A request that the session check rejects is charged all the same.  In
    active windows with room left, the attempt is answered with a 429 of
    type [sessions], and it has used one of the key's requests and the
    estimated tokens of its message. *)
Theorem rejected_attempt_is_charged (config : RateLimitConfig) (clk : Clock)
    (ip sessionId messageText : string) (cors : gmap string string)
    (s : RateLimitStore) (window : RequestLimitData.t)
    (budget : TokenLimitData.t) (held : SessionLimitData.t) :
  requests s !! ip = Some window →
  atRequestCheck clk < RequestLimitData.resetTime window →
  RequestLimitData.count window < requests_limit config →
  tokens s !! ip = Some budget →
  atTokenCheck clk < TokenLimitData.resetTime budget →
  TokenLimitData.dailyUsage budget + estimateTokens messageText
  ≤ tokens_limit config →
  sessions s !! ip = Some held →
  sessionId ∉ SessionLimitData.sessionIds held →
  sessions_limit config ≤ SessionLimitData.activeCount held →
  let out := checkLimits config clk ip sessionId messageText cors s in
  decision out.1 = Some type_sessions
  ∧ requests out.2 !! ip
    = Some (RequestLimitData.mk (RequestLimitData.count window + 1)
              (RequestLimitData.resetTime window))
  ∧ tokens out.2 !! ip
    = Some (TokenLimitData.mk
              (TokenLimitData.dailyUsage budget + estimateTokens messageText)
              (TokenLimitData.resetTime budget)).
Proof.
  intros Hwindow Hopen Hroom Hbudget Hday Hfits Hheld Hnew Hfull out.
  unfold out. rewrite checkLimits_unfold. unfold checkLimits_steps.
  set (rq := checkRequestLimit config (atRequestCheck clk) ip s).
  assert (rq = (LimitCheck.mk true
                  (requests_limit config - (RequestLimitData.count window + 1))
                  (RequestLimitData.resetTime window),
                set_requests s
                  (<[ip := RequestLimitData.mk
                             (RequestLimitData.count window + 1)
                             (RequestLimitData.resetTime window)]>
                     (requests s)))) as Hrq.
  { unfold rq, checkRequestLimit. rewrite Hwindow, !Z.geb_leb.
    assert ((RequestLimitData.resetTime window <=? atRequestCheck clk) = false)
      as -> by (apply Z.leb_gt; lia).
    by assert ((requests_limit config <=? RequestLimitData.count window)
               = false) as -> by (apply Z.leb_gt; lia). }
  rewrite Hrq. cbn [fst snd negb LimitCheck.allowed].
  set (s1 := set_requests s _).
  set (tk := checkTokenLimit config (atTokenCheck clk) ip
               (estimateTokens messageText) s1).
  assert (tk = (LimitCheck.mk true
                  (tokens_limit config
                   - (TokenLimitData.dailyUsage budget
                      + estimateTokens messageText))
                  (TokenLimitData.resetTime budget),
                set_tokens s1
                  (<[ip := TokenLimitData.mk
                             (TokenLimitData.dailyUsage budget
                              + estimateTokens messageText)
                             (TokenLimitData.resetTime budget)]>
                     (tokens s1)))) as Htk.
  { unfold tk, checkTokenLimit. cbn [tokens s1 set_requests].
    rewrite Hbudget, Z.geb_leb, Z.gtb_ltb.
    assert ((TokenLimitData.resetTime budget <=? atTokenCheck clk) = false)
      as -> by (apply Z.leb_gt; lia).
    by assert ((tokens_limit config
                <? TokenLimitData.dailyUsage budget
                   + estimateTokens messageText) = false) as ->
      by (apply Z.ltb_ge; lia). }
  rewrite Htk. cbn [fst snd negb LimitCheck.allowed].
  set (s2 := set_tokens s1 _).
  rewrite (checkSessionLimit_full config ip sessionId s2 held) by done.
  cbn [fst snd negb SessionCheck.allowed].
  split; [by unfold decision; simpl; rewrite ?createRateLimitResponse_type|].
  cbn [requests tokens s2 s1 set_tokens set_requests].
  by rewrite !lookup_insert_eq.
Qed.

Lemma rejected_attempt_is_charged_witness :
  let ip := "203.0.113.7" in
  let s := run exampleConfig
             [CheckLimits (frozen 0) ip "s1" "Hello" corsHeaders;
              CheckLimits (frozen 0) ip "s2" "Hello" corsHeaders;
              CheckLimits (frozen 0) ip "s3" "Hello" corsHeaders] emptyStore in
  let out := checkLimits exampleConfig (frozen 5) ip "s4" (messageOfLength 4000)
               corsHeaders s in
  decision out.1 = Some type_sessions
  ∧ requests out.2 !! ip = Some (RequestLimitData.mk 4 3600000)
  ∧ tokens out.2 !! ip = Some (TokenLimitData.mk 1006 86400000).
Proof.
  intros ip s out.
  refine (rejected_attempt_is_charged exampleConfig (frozen 5) ip "s4"
            (messageOfLength 4000) corsHeaders s
            (RequestLimitData.mk 3 3600000) (TokenLimitData.mk 6 86400000)
            (SessionLimitData.mk 3 ({["s1"]} ∪ {["s2"]} ∪ {["s3"]}))
            _ _ _ _ _ _ _ _ _).
  - vm_compute; reflexivity.
  - simpl; lia.
  - simpl; lia.
  - vm_compute; reflexivity.
  - simpl; lia.
  - apply (bool_decide_unpack _). vm_compute. exact I.
  - vm_compute; reflexivity.
  - apply (bool_decide_unpack _). vm_compute. exact I.
  - simpl; lia.
Defined.
